(** * gcp-pubsub-create-topic: a shallow embedding of [src/index.ts] and
      [src/pubsub.ts], and the properties of its validators and of the
      create-or-skip orchestration.

    JavaScript strings are sequences of UTF-16 code units; they are modelled
    as lists of code units ([jsstring]), so that the two regular expressions
    and [JSON.parse] see exactly the units the engine sees. *)

From Stdlib Require Import ZArith NArith Ascii String DecimalString DecimalPos DecimalN.
From stdpp Require Import gmap list fin_maps.

Local Open Scope N_scope.
Local Open Scope list_scope.

#[local] Set Warnings "-clear-no-such-hyp".

(** ** Strings *)

Module Js.

(** A JavaScript string: its UTF-16 code units. *)
Abbreviation jsstring := (list N).

(** The code unit of an ASCII character, and the string of an ASCII literal. *)
Definition ch (a : ascii) : N := N_of_ascii a.

Definition lit (s : string) : jsstring := N_of_ascii <$> list_ascii_of_string s.

(** The double quote, U+0022. *)
Definition dq : jsstring := [34].

(** A literal written with apostrophes where the text has double quotes. *)
Definition quoted (s : string) : jsstring := (fun c => if c =? 39 then 34 else c) <$> lit s.

(** [c] lies in the range [lo-hi] of a character class. *)
Definition between (lo hi : ascii) (c : N) : bool := (ch lo <=? c) && (c <=? ch hi).

Definition is_ch (a : ascii) (c : N) : bool := c =? ch a.

(** [\d] (without the unicode flag it is [0-9]). *)
Definition digit (c : N) : bool := between "0" "9" c.

(** [a-zA-Z]. *)
Definition letter (c : N) : bool := between "a" "z" c || between "A" "Z" c.

(** [String.prototype.includes]. *)
Fixpoint starts_with (needle hay : jsstring) : bool :=
  match needle, hay with
  | [], _ => true
  | a :: needle', b :: hay' => (a =? b) && starts_with needle' hay'
  | _ :: _, [] => false
  end.

Fixpoint includes (needle hay : jsstring) : bool :=
  starts_with needle hay ||
  match hay with
  | [] => false
  | _ :: hay' => includes needle hay'
  end.

(** Decimal rendering of a non-negative integer, as [String(n)] gives it. *)
Definition decimal (n : N) : jsstring := lit (NilZero.string_of_uint (N.to_uint n)).

(** [s.repeat(n)]. *)
Fixpoint repeat_str (s : jsstring) (n : nat) : jsstring :=
  match n with
  | O => []
  | S n' => s ++ repeat_str s n'
  end.

(** [String.prototype.toLowerCase] on the code units below U+0100: [A-Z] and
    the Latin-1 capitals U+00C0-U+00DE (U+00D7, the multiplication sign, is
    not a letter) move up by 32. Units from U+0100 on are left in place, so
    the model is exact on Latin-1 text; no unit from U+0100 on lowers to one of
    the letters [t], [r], [u], [e], so a comparison of the result with
    ['true'] is exact on every text. *)
Definition lower_unit (c : N) : N :=
  if between "A" "Z" c then c + 32
  else if (192 <=? c) && (c <=? 222) && negb (c =? 215) then c + 32
  else c.

Definition toLowerCase (s : jsstring) : jsstring := lower_unit <$> s.

End Js.
Import Js.

(** ** Numbers

    A JavaScript number is an IEEE-754 double. The program only builds
    non-negative integers ([parseInt] of a string of digits, times a constant),
    so a number is modelled by its exact integer value, [Infinity] or [NaN],
    with the rounding to 53 significant bits written out. *)

Module Num.

Inductive number : Type :=
| Fin (z : Z)
| Infinity
| NaN.

(** Round a non-negative integer to the nearest double, ties to even. *)
Definition round_double (z : Z) : number :=
  if (z <? 2 ^ 53)%Z then Fin z
  else
    let e := (Z.log2 z - 52)%Z in
    let q := Z.shiftr z e in
    let r := Z.land z (2 ^ e - 1)%Z in
    let half := (2 ^ (e - 1))%Z in
    let q' := if (half <? r)%Z || ((r =? half)%Z && Z.odd q) then (q + 1)%Z else q in
    let v := Z.shiftl q' e in
    if (2 ^ 1024 <=? v)%Z then Infinity else Fin v.

(** [a * b] on non-negative numbers. *)
Definition mul (a b : number) : number :=
  match a, b with
  | Fin x, Fin y => round_double (x * y)
  | Infinity, Fin y | Fin y, Infinity => if (y =? 0)%Z then NaN else Infinity
  | Infinity, Infinity => Infinity
  | NaN, _ | _, NaN => NaN
  end.

(** The mathematical value of a string of decimal digits. *)
Definition digits_value (ds : jsstring) : Z :=
  fold_left (fun acc c => (10 * acc + Z.of_N (c - ch "0"))%Z) ds 0%Z.

(** The leading run of units that satisfy [p]. *)
Fixpoint take_while (p : N -> bool) (s : jsstring) : jsstring :=
  match s with
  | c :: s' => if p c then c :: take_while p s' else []
  | [] => []
  end.

(** What follows that run. *)
Fixpoint drop_while (p : N -> bool) (s : jsstring) : jsstring :=
  match s with
  | c :: s' => if p c then drop_while p s' else s
  | [] => []
  end.

(** [parseInt(s, 10)] on the strings the program passes, which are captures of
    [\d+]: the value of the leading run of digits, correctly rounded, and
    [NaN] when there is no leading digit. (The white space and sign that
    [parseInt] also skips cannot occur in such a capture.) *)
Definition parseInt10 (s : jsstring) : number :=
  match take_while digit s with
  | [] => NaN
  | ds => round_double (digits_value ds)
  end.

End Num.
Import Num.

(** ** Regular expressions

    The two patterns of the program are sequences of character classes,
    bounded or unbounded repetitions of a class, and capture groups that do not
    nest. [exec] is a backtracking matcher in continuation-passing style:
    quantifiers are greedy and give characters back one at a time, as the
    engine does, and a capture is the text its group consumed. *)

Module Regex.

Inductive regex : Type :=
| Class (p : N -> bool)
| Seq (r1 r2 : regex)
| Repeat (lo : nat) (hi : option nat) (p : N -> bool)
| Group (r : regex).

(** [p{lo,hi}] ([hi = None] for no upper bound), then the continuation [k] on
    what is left; the longest repetition is tried first. *)
Fixpoint rep {A} (p : N -> bool) (lo : nat) (hi : option nat) (s : jsstring)
    (k : jsstring -> option A) : option A :=
  let stop := match lo with O => k s | S _ => None end in
  match s with
  | c :: s' =>
      if p c && negb (bool_decide (hi = Some O)) then
        match rep p (pred lo) (pred <$> hi) s' k with
        | Some res => Some res
        | None => stop
        end
      else stop
  | [] => stop
  end.

(** The bounds of a quantifier. *)
Definition within (lo : nat) (hi : option nat) (n : nat) : Prop :=
  (lo <= n)%nat /\ match hi with Some h => (n <= h)%nat | None => True end.

#[export] Instance within_dec lo hi n : Decision (within lo hi n).
Proof. unfold within. destruct hi; apply _. Defined.

(** Captures are listed in the order of their groups. *)
Fixpoint exec (r : regex) (s : jsstring) (caps : list jsstring)
    (k : jsstring -> list jsstring -> option (list jsstring)) : option (list jsstring) :=
  match r with
  | Class p =>
      match s with
      | c :: s' => if p c then k s' caps else None
      | [] => None
      end
  | Seq r1 r2 => exec r1 s caps (fun s' caps' => exec r2 s' caps' k)
  | Repeat lo hi p => rep p lo hi s (fun s' => k s' caps)
  | Group r1 =>
      exec r1 s caps (fun s' caps' => k s' (caps' ++ [take (length s - length s') s]))
  end.

(** [s.match(/^r$/)]: the captures of the match of the whole of [s], or [None]
    ([null]) when there is none. Without the [m] flag [^] and [$] are the two
    ends of the input. *)
Definition match_anchored (r : regex) (s : jsstring) : option (list jsstring) :=
  exec r s [] (fun s' caps => match s' with [] => Some caps | _ :: _ => None end).

(** [/^r$/.test(s)]. *)
Definition test_anchored (r : regex) (s : jsstring) : bool :=
  bool_decide (is_Some (match_anchored r s)).

End Regex.
Import Regex.

(** ** Thrown values and results *)

(** What a [throw] carries: an [Error] (or a subclass of it) with its message,
    or any other value, kept as the text [String(error)] gives. *)
Inductive Thrown : Type :=
| ErrorObj (message : jsstring)
| NonError (text : jsstring).

(** [error instanceof Error ? error.message : String(error)] *)
Definition errorMessage (e : Thrown) : jsstring :=
  match e with
  | ErrorObj message => message
  | NonError text => text
  end.

(** A call either returns or throws. *)
Inductive result (A : Type) : Type :=
| Return (a : A)
| Throw (e : Thrown).
Arguments Return {A} a.
Arguments Throw {A} e.

(** ** validateTopicName *)

(** [[a-zA-Z0-9._~+%-]] *)
Definition topic_char (c : N) : bool :=
  letter c || digit c || is_ch "." c || is_ch "_" c || is_ch "~" c || is_ch "+" c
  || is_ch "%" c || is_ch "-" c.

(** [/^[a-zA-Z][a-zA-Z0-9._~+%-]{2,254}$/] *)
Definition topicPattern : regex :=
  Seq (Class letter) (Repeat 2 (Some 254%nat) topic_char).

Definition invalid_topic_name_message (topicName : jsstring) : jsstring :=
  lit "Invalid topic name: " ++ dq ++ topicName ++ dq ++ lit ". " ++
  lit "Topic names must start with a letter and be 3-255 characters long, " ++
  lit "containing only letters, numbers, and ._~+%-".

Definition validateTopicName (topicName : jsstring) : result unit :=
  if negb (test_anchored topicPattern topicName) then
    Throw (ErrorObj (invalid_topic_name_message topicName))
  else Return tt.

(** ** parseDuration *)

(** [{ seconds?: number; nanos?: number }] *)
Record Duration : Type := mkDuration {
  seconds : option number;
  nanos : option number
}.

(** [[dhms]] *)
Definition unit_char (c : N) : bool :=
  is_ch "d" c || is_ch "h" c || is_ch "m" c || is_ch "s" c.

(** [/^(\d+)([dhms])$/] *)
Definition durationPattern : regex :=
  Seq (Group (Repeat 1 None digit)) (Group (Class unit_char)).

Definition invalid_duration_message (duration : jsstring) : jsstring :=
  lit "Invalid duration format: " ++ dq ++ duration ++ dq ++ lit ". " ++
  lit "Use format like " ++ dq ++ lit "7d" ++ dq ++ lit " (days), " ++
  dq ++ lit "600s" ++ dq ++ lit " (seconds), " ++
  dq ++ lit "1h" ++ dq ++ lit " (hours), or " ++
  dq ++ lit "30m" ++ dq ++ lit " (minutes)".

(** The [switch (unit)]: [seconds] starts at 0 and a unit outside the four
    cases leaves it there. *)
Definition seconds_of (value : number) (unit : jsstring) : number :=
  if bool_decide (unit = lit "d") then Num.mul value (Fin 86400)
  else if bool_decide (unit = lit "h") then Num.mul value (Fin 3600)
  else if bool_decide (unit = lit "m") then Num.mul value (Fin 60)
  else if bool_decide (unit = lit "s") then value
  else Fin 0.

Definition parseDuration (duration : jsstring) : result Duration :=
  match match_anchored durationPattern duration with
  | None => Throw (ErrorObj (invalid_duration_message duration))
  | Some m =>
      let value := parseInt10 (default [] (m !! 0%nat)) in
      let unit := default [] (m !! 1%nat) in
      Return {| seconds := Some (seconds_of value unit); nanos := None |}
  end.

(** ** The engine's own messages

    The text of the [SyntaxError] that [JSON.parse] throws and of the
    [TypeError] that converting [null] to an object throws is chosen by the
    JavaScript engine, not by the program: both are parameters. *)

Class Engine : Type := {
  json_syntax_error_message : jsstring -> jsstring;
  null_to_object_message : jsstring
}.

(** ** JSON documents and [JSON.parse] *)

Module Json.

(** A parsed document. A number keeps its source text: the program only asks
    for its [typeof]. The properties of an object are in creation order. *)
#[warnings="-register-all"] Inductive JSON : Type :=
| JNull
| JBool (b : bool)
| JNumber (lexeme : jsstring)
| JString (s : jsstring)
| JArray (elems : list JSON)
| JObject (props : list (jsstring * JSON)).

(** [CreateDataProperty]: a repeated member name replaces the value and keeps
    the place of the first one. *)
Fixpoint define_prop (k : jsstring) (v : JSON) (props : list (jsstring * JSON))
    : list (jsstring * JSON) :=
  match props with
  | [] => [(k, v)]
  | (k', v') :: rest =>
      if bool_decide (k = k') then (k, v) :: rest else (k', v') :: define_prop k v rest
  end.

(** The parser is a pushdown automaton that reads the text one code unit at a
    time. A frame of the stack is a container that is still open. *)
Inductive frame : Type :=
| InArray (rev_elems : list JSON)
| InObject (props : list (jsstring * JSON)) (key : option jsstring).

Inductive str_state : Type :=
| SChars
| SEscape
| SHex (n : nat) (v : N).

(** A number: an optional minus sign; a zero, or a digit from 1 to 9 and any
    digits; optionally a point and one or more digits; optionally [e] or [E],
    a sign and one or more digits. *)
Inductive num_state : Type :=
| NMinus | NZero | NInt | NDot | NFrac | NExp | NExpSign | NExpDigits.

Inductive mode : Type :=
| BeforeValue
| BeforeFirstElement
| BeforeFirstMember
| BeforeKey
| BeforeColon
| AfterValue
| InString (is_key : bool) (rev_chars : jsstring) (st : str_state)
| InNumber (rev_chars : jsstring) (st : num_state)
| InLiteral (expected : jsstring) (v : JSON).

Record state : Type := mkState {
  stack : list frame;
  top : option JSON;
  mode_of : mode
}.

Definition initial : state := mkState [] None BeforeValue.

(** JSON white space: tab, line feed, carriage return, space. *)
Definition ws (c : N) : bool := (c =? 9) || (c =? 10) || (c =? 13) || (c =? 32).

Definition hex_value (c : N) : option N :=
  if digit c then Some (c - ch "0")
  else if between "a" "f" c then Some (c - ch "a" + 10)
  else if between "A" "F" c then Some (c - ch "A" + 10)
  else None.

(** A value is complete: it is the document, the next element of the open
    array, or the value of the pending key of the open object. *)
Definition complete_value (v : JSON) (fs : list frame) (t : option JSON) : option state :=
  match fs with
  | [] => Some (mkState [] (Some v) AfterValue)
  | InArray es :: fs' => Some (mkState (InArray (v :: es) :: fs') t AfterValue)
  | InObject ps (Some k) :: fs' =>
      Some (mkState (InObject (define_prop k v ps) None :: fs') t AfterValue)
  | InObject _ None :: _ => None
  end.

Definition start_value (fs : list frame) (t : option JSON) (c : N) : option state :=
  if is_ch "034" c then Some (mkState fs t (InString false [] SChars))
  else if is_ch "-" c then Some (mkState fs t (InNumber [c] NMinus))
  else if is_ch "0" c then Some (mkState fs t (InNumber [c] NZero))
  else if between "1" "9" c then Some (mkState fs t (InNumber [c] NInt))
  else if is_ch "[" c then Some (mkState (InArray [] :: fs) t BeforeFirstElement)
  else if is_ch "{" c then Some (mkState (InObject [] None :: fs) t BeforeFirstMember)
  else if is_ch "n" c then Some (mkState fs t (InLiteral (lit "ull") JNull))
  else if is_ch "t" c then Some (mkState fs t (InLiteral (lit "rue") (JBool true)))
  else if is_ch "f" c then Some (mkState fs t (InLiteral (lit "alse") (JBool false)))
  else None.

Definition start_key (fs : list frame) (t : option JSON) (c : N) : option state :=
  if is_ch "034" c then Some (mkState fs t (InString true [] SChars)) else None.

Definition close_array (fs : list frame) (t : option JSON) : option state :=
  match fs with
  | InArray es :: fs' => complete_value (JArray (rev es)) fs' t
  | _ => None
  end.

Definition close_object (fs : list frame) (t : option JSON) : option state :=
  match fs with
  | InObject ps None :: fs' => complete_value (JObject ps) fs' t
  | _ => None
  end.

Definition after_value (fs : list frame) (t : option JSON) (c : N) : option state :=
  if ws c then Some (mkState fs t AfterValue)
  else if is_ch "," c then
    match fs with
    | InArray _ :: _ => Some (mkState fs t BeforeValue)
    | InObject _ None :: _ => Some (mkState fs t BeforeKey)
    | _ => None
    end
  else if is_ch "]" c then close_array fs t
  else if is_ch "}" c then close_object fs t
  else None.

Definition num_step (ns : num_state) (c : N) : option num_state :=
  let exponent := is_ch "e" c || is_ch "E" c in
  match ns with
  | NMinus => if is_ch "0" c then Some NZero else if between "1" "9" c then Some NInt else None
  | NZero => if is_ch "." c then Some NDot else if exponent then Some NExp else None
  | NInt =>
      if digit c then Some NInt else if is_ch "." c then Some NDot
      else if exponent then Some NExp else None
  | NDot => if digit c then Some NFrac else None
  | NFrac => if digit c then Some NFrac else if exponent then Some NExp else None
  | NExp =>
      if is_ch "+" c || is_ch "-" c then Some NExpSign
      else if digit c then Some NExpDigits else None
  | NExpSign => if digit c then Some NExpDigits else None
  | NExpDigits => if digit c then Some NExpDigits else None
  end.

Definition num_accepting (ns : num_state) : bool :=
  match ns with
  | NZero | NInt | NFrac | NExpDigits => true
  | NMinus | NDot | NExp | NExpSign => false
  end.

(** The unit an escape [\c] stands for. *)
Definition escape_value (c : N) : option N :=
  if is_ch "034" c then Some 34
  else if is_ch "\" c then Some 92
  else if is_ch "/" c then Some 47
  else if is_ch "b" c then Some 8
  else if is_ch "f" c then Some 12
  else if is_ch "n" c then Some 10
  else if is_ch "r" c then Some 13
  else if is_ch "t" c then Some 9
  else None.

Definition end_string (is_key : bool) (s : jsstring) (fs : list frame) (t : option JSON)
    : option state :=
  if is_key then
    match fs with
    | InObject ps None :: fs' => Some (mkState (InObject ps (Some s) :: fs') t BeforeColon)
    | _ => None
    end
  else complete_value (JString s) fs t.

Definition step (st : state) (c : N) : option state :=
  let fs := stack st in
  let t := top st in
  match mode_of st with
  | BeforeValue => if ws c then Some st else start_value fs t c
  | BeforeFirstElement =>
      if ws c then Some st else if is_ch "]" c then close_array fs t else start_value fs t c
  | BeforeFirstMember =>
      if ws c then Some st else if is_ch "}" c then close_object fs t else start_key fs t c
  | BeforeKey => if ws c then Some st else start_key fs t c
  | BeforeColon =>
      if ws c then Some st else if is_ch ":" c then Some (mkState fs t BeforeValue) else None
  | AfterValue => after_value fs t c
  | InString is_key acc SChars =>
      if is_ch "034" c then end_string is_key (rev acc) fs t
      else if is_ch "\" c then Some (mkState fs t (InString is_key acc SEscape))
      else if c <? 32 then None
      else Some (mkState fs t (InString is_key (c :: acc) SChars))
  | InString is_key acc SEscape =>
      if is_ch "u" c then Some (mkState fs t (InString is_key acc (SHex 0 0)))
      else
        match escape_value c with
        | Some u => Some (mkState fs t (InString is_key (u :: acc) SChars))
        | None => None
        end
  | InString is_key acc (SHex n v) =>
      match hex_value c with
      | Some d =>
          let v' := 16 * v + d in
          if bool_decide (n = 3%nat) then Some (mkState fs t (InString is_key (v' :: acc) SChars))
          else Some (mkState fs t (InString is_key acc (SHex (S n) v')))
      | None => None
      end
  | InNumber acc ns =>
      match num_step ns c with
      | Some ns' => Some (mkState fs t (InNumber (c :: acc) ns'))
      | None =>
          if num_accepting ns then
            match complete_value (JNumber (rev acc)) fs t with
            | Some st' => after_value (stack st') (top st') c
            | None => None
            end
          else None
      end
  | InLiteral expected v =>
      match expected with
      | e :: rest =>
          if c =? e then
            match rest with
            | [] => complete_value v fs t
            | _ :: _ => Some (mkState fs t (InLiteral rest v))
            end
          else None
      | [] => None
      end
  end.

(** The end of the text: the document must be complete. *)
Definition finish (st : state) : option JSON :=
  match stack st, mode_of st with
  | [], AfterValue => top st
  | [], InNumber acc ns => if num_accepting ns then Some (JNumber (rev acc)) else None
  | _, _ => None
  end.

Fixpoint run_text (st : state) (text : jsstring) : option JSON :=
  match text with
  | [] => finish st
  | c :: text' =>
      match step st c with
      | Some st' => run_text st' text'
      | None => None
      end
  end.

(** The document of a JSON text, or [None] when the text is not JSON. *)
Definition parse_text (text : jsstring) : option JSON := run_text initial text.

(** [JSON.parse(text)] *)
Definition JSON_parse `{Engine} (text : jsstring) : result JSON :=
  match parse_text text with
  | Some v => Return v
  | None => Throw (ErrorObj (json_syntax_error_message text))
  end.

(** [typeof v] *)
Definition typeof (v : JSON) : jsstring :=
  match v with
  | JNull | JArray _ | JObject _ => lit "object"
  | JBool _ => lit "boolean"
  | JNumber _ => lit "number"
  | JString _ => lit "string"
  end.

(** An array index: the canonical decimal text of an integer below 2^32 - 1. *)
Definition array_index (k : jsstring) : option N :=
  match k with
  | [] => None
  | c :: rest =>
      if forallb digit k && (negb (is_ch "0" c) || bool_decide (rest = [])) then
        let n := Z.to_N (digits_value k) in
        if n <? 2 ^ 32 - 1 then Some n else None
      else None
  end.

(** The own property keys of an ordinary object come in this order: the array
    indices in ascending order, then the other names in creation order. *)
Fixpoint insert_index (i : N) (e : jsstring * JSON) (l : list (N * (jsstring * JSON)))
    : list (N * (jsstring * JSON)) :=
  match l with
  | [] => [(i, e)]
  | (j, e') :: l' => if i <=? j then (i, e) :: l else (j, e') :: insert_index i e l'
  end.

Fixpoint index_props (props : list (jsstring * JSON)) : list (N * (jsstring * JSON)) :=
  match props with
  | [] => []
  | (k, v) :: rest =>
      match array_index k with
      | Some i => insert_index i (k, v) (index_props rest)
      | None => index_props rest
      end
  end.

Definition own_entries (props : list (jsstring * JSON)) : list (jsstring * JSON) :=
  (snd <$> index_props props) ++
  List.filter (fun kv => bool_decide (array_index (fst kv) = None)) props.

(** [Object.entries(v)]: the indexed elements of an array, the indexed units
    of a string, nothing for a number or a boolean; [null] has no object to
    convert to. *)
Definition Object_entries `{Engine} (v : JSON) : result (list (jsstring * JSON)) :=
  match v with
  | JNull => Throw (ErrorObj null_to_object_message)
  | JBool _ | JNumber _ => Return []
  | JString s => Return (imap (fun i c => (decimal (N.of_nat i), JString [c])) s)
  | JArray elems => Return (imap (fun i e => (decimal (N.of_nat i), e)) elems)
  | JObject props => Return (own_entries props)
  end.

End Json.
Import Json.

(** ** parseLabels *)

Definition label_type_message (key type : jsstring) : jsstring :=
  lit "Label " ++ dq ++ key ++ dq ++ lit " must be a string, got " ++ type ++ lit ". " ++
  lit "All labels must be strings.".

(** [labels[key] = value] on the object literal [{}], for a string [value].
    The name [__proto__] is not stored: it reaches the setter that
    [Object.prototype] has for it, which ignores a value that is neither an
    object nor [null]. Every other name becomes an own property. *)
Definition assign_label (key value : jsstring) (labels : gmap jsstring jsstring)
    : gmap jsstring jsstring :=
  if bool_decide (key = lit "__proto__") then labels else <[key := value]> labels.

(** The [for] loop over the entries. *)
Fixpoint collect_labels (entries : list (jsstring * JSON)) (labels : gmap jsstring jsstring)
    : result (gmap jsstring jsstring) :=
  match entries with
  | [] => Return labels
  | (key, value) :: rest =>
      match value with
      | JString s => collect_labels rest (assign_label key s labels)
      | _ => Throw (ErrorObj (label_type_message key (typeof value)))
      end
  end.

(** The body of the [try] block. *)
Definition parseLabels_try `{Engine} (labelsJson : jsstring) : result (gmap jsstring jsstring) :=
  match JSON_parse labelsJson with
  | Throw e => Throw e
  | Return parsed =>
      match Object_entries parsed with
      | Throw e => Throw e
      | Return entries => collect_labels entries ∅
      end
  end.

Definition parseLabels `{Engine} (labelsJson : jsstring) : result (gmap jsstring jsstring) :=
  match parseLabels_try labelsJson with
  | Return labels => Return labels
  | Throw error =>
      Throw (ErrorObj (lit "Failed to parse labels: " ++ errorMessage error))
  end.

(** ** The data of the orchestration *)

Module TopicConfig.
Record t : Type := mk {
  topicName : jsstring;
  skipIfExists : bool;
  labels : option jsstring;
  kmsKeyName : option jsstring;
  messageRetentionDuration : option jsstring
}.
End TopicConfig.

Module TopicResult.
Record t : Type := mk {
  success : bool;
  topicName : option jsstring;
  created : option bool;
  error : option jsstring
}.
End TopicResult.

(** The object given to [topic.setMetadata]. *)
Module Metadata.
Record t : Type := mk {
  labels : option (gmap jsstring jsstring);
  kmsKeyName : option jsstring;
  messageRetentionDuration : option Duration
}.
End Metadata.

(** A topic handle of the client library; [name] is the fully-qualified name. *)
Record Topic : Type := mkTopic { name : jsstring }.

(** The result of [checkTopicExists]. *)
Record ExistsCheck : Type := mkExistsCheck {
  exists_ : bool;
  topic : option Topic
}.

(** An optional string in a condition: [undefined] and the empty string are
    falsy. *)
Definition truthy (o : option jsstring) : bool :=
  match o with
  | Some (_ :: _) => true
  | Some [] | None => false
  end.

(** ** The Pub/Sub client

    The client library is a collaborator of the program. It is an interface
    with the three requests the program makes, over the state [St] of the
    service (and of the connection to it); [pubsub_topic] only builds a handle. *)

Class PubSub (St : Type) : Type := {
  pubsub_topic : jsstring -> result Topic;
  topic_exists : Topic -> St -> result bool * St;
  pubsub_createTopic : jsstring -> St -> result Topic * St;
  topic_setMetadata : Topic -> Metadata.t -> St -> result unit * St
}.

(** The requests sent to the service, and what the runner toolkit ([core]) was
    asked to record. *)
Inductive Call : Type :=
| ExistsCall (t : Topic)
| CreateTopicCall (topicName : jsstring)
| SetMetadataCall (t : Topic) (metadata : Metadata.t).

Inductive Event : Type :=
| Info (message : jsstring)
| Warning (message : jsstring)
| Error (message : jsstring)
| SetOutput (key value : jsstring)
| SetFailed (message : jsstring).

Record World (St : Type) : Type := mkWorld {
  service : St;
  calls : list Call;
  log : list Event
}.
Arguments mkWorld {St} service calls log.
Arguments service {St} w.
Arguments calls {St} w.
Arguments log {St} w.

(** ** Actions: state passing with exceptions *)

Definition Action (St A : Type) : Type := World St -> result A * World St.

Definition action_ret {St A} (a : A) : Action St A := fun w => (Return a, w).

Definition action_bind {St A B} (c : Action St A) (k : A -> Action St B) : Action St B :=
  fun w =>
    match c w with
    | (Return a, w') => k a w'
    | (Throw e, w') => (Throw e, w')
    end.

Definition throw {St A} (e : Thrown) : Action St A := fun w => (Throw e, w).

(** A pure call that may throw. *)
Definition lift {St A} (r : result A) : Action St A := fun w => (r, w).

(** [try { body } catch (error) { handler }] *)
Definition try_catch {St A} (body : Action St A) (handler : Thrown -> Action St A)
    : Action St A :=
  fun w =>
    match body w with
    | (Return a, w') => (Return a, w')
    | (Throw e, w') => handler e w'
    end.

Notation "'let*' x := c 'in' k" := (action_bind c (fun x => k))
  (at level 10, x name, c at level 100, k at level 200).
Notation "c ;;; k" := (action_bind c (fun _ => k))
  (at level 100, k at level 200, right associativity).

Section Orchestration.

Context {St : Type}.

Definition emit (e : Event) : Action St unit :=
  fun w => (Return tt, mkWorld (service w) (calls w) (log w ++ [e])).

Definition core_info (message : jsstring) : Action St unit := emit (Info message).
Definition core_warning (message : jsstring) : Action St unit := emit (Warning message).
Definition core_error (message : jsstring) : Action St unit := emit (Error message).
Definition core_setOutput (key value : jsstring) : Action St unit := emit (SetOutput key value).
Definition core_setFailed (message : jsstring) : Action St unit := emit (SetFailed message).

(** A request: it is recorded, and the service answers and moves on. *)
Definition request {A} (c : Call) (f : St -> result A * St) : Action St A :=
  fun w =>
    let '(r, s') := f (service w) in
    (r, mkWorld s' (calls w ++ [c]) (log w)).

Context `{Engine} `{PubSub St}.

(** [checkTopicExists] *)
Definition checkTopicExists (topicName : jsstring) : Action St ExistsCheck :=
  try_catch
    (let* topic := lift (pubsub_topic topicName) in
     let* exists' := request (ExistsCall topic) (topic_exists topic) in
     action_ret (mkExistsCheck exists' (if exists' then Some topic else None)))
    (fun error =>
       core_warning (lit "Failed to check if topic exists: " ++ errorMessage error);;;
       action_ret (mkExistsCheck false None)).

Definition already_exists_message (topicName : jsstring) : jsstring :=
  lit "Topic " ++ dq ++ topicName ++ dq ++ lit " already exists. " ++
  lit "Set skip-if-exists=true to succeed when topic exists.".

(** The check mark U+2713 that starts some of the log lines. *)
Definition check_mark : jsstring := [10003].

(** The block that fills [metadata] and sends it. *)
Definition set_metadata (config : TopicConfig.t) (topic : Topic) : Action St unit :=
  let* labels :=
    match truthy (TopicConfig.labels config), TopicConfig.labels config with
    | true, Some text =>
        let* parsed := lift (parseLabels text) in
        core_info (lit "Setting labels: " ++ decimal (N.of_nat (size parsed)) ++ lit " label(s)");;;
        action_ret (Some parsed)
    | _, _ => action_ret None
    end in
  let* kmsKeyName :=
    match truthy (TopicConfig.kmsKeyName config), TopicConfig.kmsKeyName config with
    | true, Some key =>
        core_info (lit "Setting KMS encryption: " ++ key);;;
        action_ret (Some key)
    | _, _ => action_ret None
    end in
  let* messageRetentionDuration :=
    match truthy (TopicConfig.messageRetentionDuration config),
          TopicConfig.messageRetentionDuration config with
    | true, Some text =>
        let* parsed := lift (parseDuration text) in
        core_info (lit "Setting message retention: " ++ text);;;
        action_ret (Some parsed)
    | _, _ => action_ret None
    end in
  let metadata := Metadata.mk labels kmsKeyName messageRetentionDuration in
  request (SetMetadataCall topic metadata) (topic_setMetadata topic metadata);;;
  core_info (check_mark ++ lit " Metadata updated").

(** The object that this block builds, when the labels and the duration
    parse: [kmsKeyName] is passed through as it is. *)
Definition parse_optional {A} (parse : jsstring -> result A) (o : option jsstring)
    : result (option A) :=
  match truthy o, o with
  | true, Some text =>
      match parse text with
      | Return a => Return (Some a)
      | Throw e => Throw e
      end
  | _, _ => Return None
  end.

Definition metadata_of (config : TopicConfig.t) : result Metadata.t :=
  match parse_optional parseLabels (TopicConfig.labels config) with
  | Throw e => Throw e
  | Return labels =>
      match parse_optional parseDuration (TopicConfig.messageRetentionDuration config) with
      | Throw e => Throw e
      | Return duration =>
          Return (Metadata.mk labels
                    (if truthy (TopicConfig.kmsKeyName config)
                     then TopicConfig.kmsKeyName config else None)
                    duration)
      end
  end.

(** Some metadata was asked for. *)
Definition wants_metadata (config : TopicConfig.t) : bool :=
  truthy (TopicConfig.labels config) || truthy (TopicConfig.kmsKeyName config)
  || truthy (TopicConfig.messageRetentionDuration config).

(** The body of the [try] block of [createTopic]. *)
Definition createTopic_try (config : TopicConfig.t) : Action St TopicResult.t :=
  let topicName := TopicConfig.topicName config in
  lift (validateTopicName topicName);;;
  core_info (lit "Topic name: " ++ topicName);;;
  let* existsCheck := checkTopicExists topicName in
  match exists_ existsCheck, topic existsCheck with
  | true, Some existing =>
      if TopicConfig.skipIfExists config then
        let fullName := name existing in
        core_info (check_mark ++ lit " Topic already exists: " ++ fullName);;;
        core_info (lit "Skip-if-exists is enabled, treating as success");;;
        action_ret (TopicResult.mk true (Some fullName) (Some false) None)
      else throw (ErrorObj (already_exists_message topicName))
  | _, _ =>
      core_info (lit "Creating new topic...");;;
      let* topic := request (CreateTopicCall topicName) (pubsub_createTopic topicName) in
      core_info (check_mark ++ lit " Topic created");;;
      (if wants_metadata config
       then set_metadata config topic
       else action_ret tt);;;
      core_info (check_mark ++ lit " Topic created successfully");;;
      core_info (lit "Topic name: " ++ name topic);;;
      action_ret (TopicResult.mk true (Some (name topic)) (Some true) None)
  end.

(** [createTopic] *)
Definition createTopic (config : TopicConfig.t) : Action St TopicResult.t :=
  try_catch (createTopic_try config)
    (fun error =>
       let errorMessage := errorMessage error in
       core_error (lit "Failed to create topic: " ++ errorMessage);;;
       action_ret (TopicResult.mk false None None (Some errorMessage))).

End Orchestration.

(** ** run *)

Section Run.

Context {St : Type} `{Engine}.

(** [core.getInput(name, { required })] is the runner's: it gives the value of
    an input (the empty string when it was not given) or throws. [new_PubSub]
    is [new PubSub({ projectId })]. *)
Variable getInput : jsstring -> bool -> result jsstring.
Variable new_PubSub : jsstring -> PubSub St.

(** [s || fallback] on a string: the empty string is falsy. *)
Definition or_else (s fallback : jsstring) : jsstring :=
  match s with
  | [] => fallback
  | _ :: _ => s
  end.

(** [s || undefined] *)
Definition or_undefined (s : jsstring) : option jsstring :=
  match s with
  | [] => None
  | _ :: _ => Some s
  end.

(** From the inputs to the configuration: the project and the [TopicConfig]. *)
Definition read_config : Action St (jsstring * TopicConfig.t) :=
  let* projectId := lift (getInput (lit "project-id") true) in
  let* topicName := lift (getInput (lit "topic-name") true) in
  let* skipIfExistsInput := lift (getInput (lit "skip-if-exists") false) in
  let skipIfExistsStr := or_else skipIfExistsInput (lit "false") in
  let* labelsInput := lift (getInput (lit "labels") false) in
  let labels := or_undefined labelsInput in
  let* kmsKeyNameInput := lift (getInput (lit "kms-key-name") false) in
  let kmsKeyName := or_undefined kmsKeyNameInput in
  let* messageRetentionDurationInput :=
    lift (getInput (lit "message-retention-duration") false) in
  let messageRetentionDuration := or_undefined messageRetentionDurationInput in
  core_info (lit "GCP Pub/Sub Create Topic");;;
  core_info (lit "Project ID: " ++ projectId);;;
  core_info (lit "Topic: " ++ topicName);;;
  let skipIfExists := bool_decide (toLowerCase skipIfExistsStr = lit "true") in
  action_ret
    (projectId,
     TopicConfig.mk topicName skipIfExists labels kmsKeyName messageRetentionDuration).

Definition string_of_bool (b : bool) : jsstring := if b then lit "true" else lit "false".

(** What [run] does with the result. *)
Definition report (result : TopicResult.t) : Action St unit :=
  (if negb (TopicResult.success result) then
     throw (ErrorObj (or_else (default [] (TopicResult.error result))
                              (lit "Failed to create topic")))
   else action_ret tt);;;
  (match truthy (TopicResult.topicName result), TopicResult.topicName result with
   | true, Some topicName => core_setOutput (lit "topic-name") topicName
   | _, _ => action_ret tt
   end);;;
  (match TopicResult.created result with
   | Some created => core_setOutput (lit "created") (string_of_bool created)
   | None => action_ret tt
   end);;;
  core_info [];;;
  core_info (repeat_str (lit "=") 50);;;
  (if default false (TopicResult.created result)
   then core_info (lit "Topic created successfully")
   else core_info (lit "Topic already exists (skip-if-exists enabled)"));;;
  (match truthy (TopicResult.topicName result), TopicResult.topicName result with
   | true, Some topicName => core_info (lit "Topic: " ++ topicName)
   | _, _ => action_ret tt
   end);;;
  core_info (repeat_str (lit "=") 50).

Definition run : Action St unit :=
  try_catch
    (let* inputs := read_config in
     let '(projectId, config) := inputs in
     let* result := @createTopic St _ (new_PubSub projectId) config in
     report result)
    (fun error => core_setFailed (errorMessage error)).

End Run.

(** ** An in-memory service

    A client over a table of topics, with switches that make a request fail:
    the orchestration can be run against it. *)

Module Fake.

Record service : Type := mkService {
  topics : gmap jsstring Metadata.t;
  exists_failure : option Thrown;
  create_failure : option Thrown;
  setMetadata_failure : option Thrown
}.

(** The fully-qualified name [projects/{project}/topics/{topic}]; a name that
    has a slash is taken to be qualified already. *)
Definition full_name (projectId topicName : jsstring) : jsstring :=
  if includes (lit "/") topicName then topicName
  else lit "projects/" ++ projectId ++ lit "/topics/" ++ topicName.

Definition no_metadata : Metadata.t := Metadata.mk None None None.

Definition client (projectId : jsstring) : PubSub service := {|
  pubsub_topic topicName :=
    match topicName with
    | [] => Throw (ErrorObj (lit "A name must be specified for a topic."))
    | _ :: _ => Return (mkTopic (full_name projectId topicName))
    end;
  topic_exists t s :=
    match exists_failure s with
    | Some e => (Throw e, s)
    | None => (Return (bool_decide (is_Some (topics s !! name t))), s)
    end;
  pubsub_createTopic topicName s :=
    let full := full_name projectId topicName in
    match create_failure s, topics s !! full with
    | Some e, _ => (Throw e, s)
    | None, Some _ => (Throw (ErrorObj (lit "6 ALREADY_EXISTS: Topic already exists")), s)
    | None, None =>
        (Return (mkTopic full),
         mkService (<[full := no_metadata]> (topics s)) (exists_failure s)
                   (create_failure s) (setMetadata_failure s))
    end;
  topic_setMetadata t metadata s :=
    match setMetadata_failure s, topics s !! name t with
    | Some e, _ => (Throw e, s)
    | None, None => (Throw (ErrorObj (lit "5 NOT_FOUND: Resource not found")), s)
    | None, Some _ =>
        (Return tt,
         mkService (<[name t := metadata]> (topics s)) (exists_failure s)
                   (create_failure s) (setMetadata_failure s))
    end
|}.

(** An engine with fixed messages. *)
Definition engine : Engine := {|
  json_syntax_error_message text :=
    lit "Unexpected token in JSON: " ++ text;
  null_to_object_message := lit "Cannot convert undefined or null to object"
|}.

(** No topic, no failure. *)
Definition empty : service := mkService ∅ None None None.

Definition world (s : service) : World service := mkWorld s [] [].

(** The project [p], its topic [events], and services that hold it, that
    refuse metadata updates, and that cannot be reached. *)
Definition events : Topic := mkTopic (lit "projects/p/topics/events").

Definition with_events : service :=
  mkService {[ name events := no_metadata ]} None None None.

Definition permission_denied : Thrown :=
  ErrorObj (lit "7 PERMISSION_DENIED: User not authorized to perform this action.").

Definition refusing_metadata : service := mkService ∅ None None (Some permission_denied).

Definition unavailable : Thrown := NonError (lit "14 UNAVAILABLE: No connection established").

Definition unreachable : service := mkService ∅ (Some unavailable) None None.

(** Configurations for [events]: skip with labels that are not JSON, no skip,
    and labels with a retention. *)
Definition skip_config : TopicConfig.t :=
  TopicConfig.mk (lit "events") true (Some (lit "not json")) None None.

Definition strict_config : TopicConfig.t :=
  TopicConfig.mk (lit "events") false None None None.

Definition labelled_config : TopicConfig.t :=
  TopicConfig.mk (lit "events") false (Some (quoted "{'env':'prod'}")) None (Some (lit "7d")).

Definition labelled_metadata : Metadata.t :=
  Metadata.mk (Some {[ lit "env" := lit "prod" ]}) None
    (Some {| seconds := Some (Fin 604800); nanos := None |}).

(** The inputs of a step that names the project [p] and the topic [events],
    and gives [skip] for [skip-if-exists]. *)
Definition inputs (skip : jsstring) (name : jsstring) (required : bool) : result jsstring :=
  if bool_decide (name = lit "project-id") then Return (lit "p")
  else if bool_decide (name = lit "topic-name") then Return (lit "events")
  else if bool_decide (name = lit "skip-if-exists") then Return skip
  else Return [].

(** [createTopic] and [checkTopicExists] on the client of project [p]. *)
Definition create (config : TopicConfig.t) : Action service TopicResult.t :=
  @createTopic service engine (client (lit "p")) config.

Definition check (topicName : jsstring) : Action service ExistsCheck :=
  @checkTopicExists service (client (lit "p")) topicName.

End Fake.

(** ** The claims in the words of the specification *)

Module Spec.

(** A letter, a digit, one of the characters [. _ ~ + % -]. *)
Definition is_letter (c : N) : Prop :=
  ch "a" <= c <= ch "z" \/ ch "A" <= c <= ch "Z".

Definition is_digit (c : N) : Prop := ch "0" <= c <= ch "9".

Definition is_allowed (c : N) : Prop :=
  is_letter c \/ is_digit c \/
  c ∈ [ch "."; ch "_"; ch "~"; ch "+"; ch "%"; ch "-"].

(** A topic name starts with a letter, is 3 to 255 characters long and has
    only allowed characters. *)
Definition valid_topic_name (s : jsstring) : Prop :=
  (3 <= length s <= 255)%nat /\
  (exists c rest, s = c :: rest /\ is_letter c) /\
  Forall is_allowed s.

(** The text of a duration: one or more digits and a unit. *)
Definition is_unit (u : N) : Prop := u ∈ [ch "d"; ch "h"; ch "m"; ch "s"].

Definition duration_text (s : jsstring) : Prop :=
  exists ds u, s = ds ++ [u] /\ ds <> [] /\ Forall is_digit ds /\ is_unit u.

(** The seconds in a unit. *)
Definition factor (u : N) : Z :=
  if bool_decide (u = ch "d") then 86400
  else if bool_decide (u = ch "h") then 3600
  else if bool_decide (u = ch "m") then 60
  else 1.

(** The word [true] in any mix of upper and lower case. *)
Definition spells_true (s : jsstring) : Prop :=
  exists c1 c2 c3 c4, s = [c1; c2; c3; c4] /\
    c1 ∈ [ch "t"; ch "T"] /\ c2 ∈ [ch "r"; ch "R"] /\
    c3 ∈ [ch "u"; ch "U"] /\ c4 ∈ [ch "e"; ch "E"].

End Spec.

(** ** Notions used to state the properties *)

Section Frames.

Context {St : Type}.

(** The world of a call, without what was recorded before it, and the world
    after it, put after those records. *)
Definition base (w : World St) : World St := mkWorld (service w) [] [].

Definition extend (w w' : World St) : World St :=
  mkWorld (service w') (calls w ++ calls w') (log w ++ log w').

(** An action is framed when it only reads the service and only adds to the
    records: what it returns does not depend on the calls and the log so far. *)
Definition framed {A} (a : Action St A) : Prop :=
  forall w, a w = (fst (a (base w)), extend w (snd (a (base w)))).

End Frames.

(** The names of the members of an object are distinct. The parser keeps this
    true of the objects it is building and of the document. *)
Definition unique_keys (v : JSON) : Prop :=
  match v with
  | JObject props => NoDup props.*1
  | _ => True
  end.

Definition frame_ok (f : frame) : Prop :=
  match f with
  | InObject props _ => NoDup props.*1
  | InArray _ => True
  end.

Definition mode_ok (m : mode) : Prop :=
  match m with
  | InLiteral _ v => unique_keys v
  | _ => True
  end.

Definition state_ok (st : state) : Prop :=
  Forall frame_ok (stack st) /\
  (forall v, top st = Some v -> unique_keys v) /\
  mode_ok (mode_of st).

(** [typeof value === 'string'] *)
Definition is_string (v : JSON) : bool :=
  match v with
  | JString _ => true
  | _ => false
  end.

(** ** Notions used to state the further properties *)

(** The results [createTopic] builds. *)
Definition failure (e : Thrown) : TopicResult.t :=
  TopicResult.mk false None None (Some (errorMessage e)).

Definition created_result (t : Topic) : TopicResult.t :=
  TopicResult.mk true (Some (name t)) (Some true) None.

Definition skipped_result (t : Topic) : TopicResult.t :=
  TopicResult.mk true (Some (name t)) (Some false) None.

Section Summary.

Context {St : Type} `{Engine} `{PubSub St}.

(** What [checkTopicExists] returns, the state it leaves the service in and
    the requests it makes. *)
Definition check_summary (topicName : jsstring) (s : St) : ExistsCheck * St * list Call :=
  match pubsub_topic topicName with
  | Throw _ => (mkExistsCheck false None, s, [])
  | Return t =>
      match topic_exists t s with
      | (Return b, s') => (mkExistsCheck b (if b then Some t else None), s', [ExistsCall t])
      | (Throw _, s') => (mkExistsCheck false None, s', [ExistsCall t])
      end
  end.

(** The same for [createTopic]: its paths without the log lines. *)
Definition createTopic_summary (config : TopicConfig.t) (s : St)
    : TopicResult.t * St * list Call :=
  let topicName := TopicConfig.topicName config in
  match validateTopicName topicName with
  | Throw e => (failure e, s, [])
  | Return _ =>
      let '(check, s1, cs) := check_summary topicName s in
      match exists_ check, topic check with
      | true, Some existing =>
          if TopicConfig.skipIfExists config then (skipped_result existing, s1, cs)
          else (failure (ErrorObj (already_exists_message topicName)), s1, cs)
      | _, _ =>
          match pubsub_createTopic topicName s1 with
          | (Throw e, s2) => (failure e, s2, cs ++ [CreateTopicCall topicName])
          | (Return tp, s2) =>
              if wants_metadata config then
                match metadata_of config with
                | Throw e => (failure e, s2, cs ++ [CreateTopicCall topicName])
                | Return md =>
                    match topic_setMetadata tp md s2 with
                    | (Throw e, s3) =>
                        (failure e, s3,
                         cs ++ [CreateTopicCall topicName; SetMetadataCall tp md])
                    | (Return _, s3) =>
                        (created_result tp, s3,
                         cs ++ [CreateTopicCall topicName; SetMetadataCall tp md])
                    end
                end
              else (created_result tp, s2, cs ++ [CreateTopicCall topicName])
          end
      end
  end.

(** An action only adds events that satisfy [P] to the log. *)
Definition logs_only {A} (P : Event -> Prop) (a : Action St A) : Prop :=
  forall w, exists l, log (snd (a w)) = log w ++ l /\ Forall P l.

(** What an action returns, when it returns, satisfies [Q]. *)
Definition returns_only {A} (Q : A -> Prop) (a : Action St A) : Prop :=
  forall w r w', a w = (Return r, w') -> Q r.

End Summary.

(** Kinds of events and of requests. *)
Definition progress_event (e : Event) : Prop :=
  match e with
  | Info _ | Warning _ => True
  | _ => False
  end.

Definition message_event (e : Event) : Prop :=
  match e with
  | Info _ | Warning _ | Error _ => True
  | _ => False
  end.

Definition info_event (e : Event) : Prop :=
  match e with
  | Info _ => True
  | _ => False
  end.

Definition output_event (e : Event) : Prop :=
  match e with
  | SetOutput _ _ => True
  | _ => False
  end.

Definition failed_event (e : Event) : Prop :=
  match e with
  | SetFailed _ => True
  | _ => False
  end.

Definition exists_call (c : Call) : Prop :=
  match c with
  | ExistsCall _ => True
  | _ => False
  end.

Definition set_metadata_call (c : Call) : Prop :=
  match c with
  | SetMetadataCall _ _ => True
  | _ => False
  end.

(** A result is either a success with a name and the [created] flag, or a
    failure with a message and nothing else. *)
Definition well_formed_result (r : TopicResult.t) : Prop :=
  (TopicResult.success r = true /\ TopicResult.error r = None /\
   is_Some (TopicResult.topicName r) /\ is_Some (TopicResult.created r)) \/
  (TopicResult.success r = false /\ is_Some (TopicResult.error r) /\
   TopicResult.topicName r = None /\ TopicResult.created r = None).

(** More services and configurations for the in-memory client. *)
Module Sample.

(** The topic [events] exists, but the existence query cannot be made. *)
Definition hidden_events : Fake.service :=
  Fake.mkService {[ name Fake.events := Fake.no_metadata ]} (Some Fake.unavailable) None None.

Definition quota_exceeded : Thrown :=
  ErrorObj (lit "8 RESOURCE_EXHAUSTED: Quota exceeded").

Definition refusing_creation : Fake.service :=
  Fake.mkService ∅ None (Some quota_exceeded) None.

Definition created_events : Fake.service :=
  Fake.mkService {[ name Fake.events := Fake.no_metadata ]} None None None.

Definition labelled_events : Fake.service :=
  Fake.mkService {[ name Fake.events := Fake.labelled_metadata ]} None None None.

(** Fields given as empty strings, labels that are not JSON, a key alone. *)
Definition empty_fields_config : TopicConfig.t :=
  TopicConfig.mk (lit "events") false (Some []) (Some []) None.

Definition bad_labels_config : TopicConfig.t :=
  TopicConfig.mk (lit "events") false (Some (lit "not json")) None (Some (lit "7d")).

Definition bad_name_config : TopicConfig.t :=
  TopicConfig.mk (lit "projects/p/topics/events") true None None None.

Definition key_config : TopicConfig.t :=
  TopicConfig.mk (lit "events") false None (Some (lit "not a key path")) None.

Definition key_metadata : Metadata.t :=
  Metadata.mk None (Some (lit "not a key path")) None.

(** The runner gives no [project-id]. *)
Definition missing_project : Thrown :=
  ErrorObj (lit "Input required and not supplied: project-id").

Definition no_project (name : jsstring) (required : bool) : result jsstring :=
  if bool_decide (name = lit "project-id") then Throw missing_project else Return [].

(** [run] on the in-memory client. *)
Definition run (getInput : jsstring -> bool -> result jsstring) : Action Fake.service unit :=
  @run Fake.service Fake.engine getInput Fake.client.

End Sample.

(** * Properties *)

(** ** Character classes and the matcher *)

Lemma between_spec lo hi c : between lo hi c = true <-> ch lo <= c <= ch hi.
Proof. unfold between. rewrite andb_true_iff, !N.leb_le. tauto. Qed.

Lemma is_ch_spec a c : is_ch a c = true <-> c = ch a.
Proof. unfold is_ch. apply N.eqb_eq. Qed.

Lemma letter_spec c : letter c = true <-> Spec.is_letter c.
Proof. unfold letter, Spec.is_letter. rewrite orb_true_iff, !between_spec. tauto. Qed.

Lemma digit_spec c : digit c = true <-> Spec.is_digit c.
Proof. unfold digit. apply between_spec. Qed.

Lemma topic_char_spec c : topic_char c = true <-> Spec.is_allowed c.
Proof.
  unfold topic_char, Spec.is_allowed.
  rewrite !orb_true_iff, letter_spec, digit_spec, !is_ch_spec.
  rewrite !elem_of_cons, elem_of_nil. tauto.
Qed.

(** What is left after the leading run of units that satisfy [p]. *)
Lemma take_drop_while p s : take_while p s ++ drop_while p s = s.
Proof. induction s as [|c s IH]; simpl; [done|]. destruct (p c); simpl; congruence. Qed.

Lemma take_while_all p s : forallb p s = true -> take_while p s = s.
Proof.
  induction s as [|c s IH]; simpl; [done|].
  intros [Hc Hs]%andb_true_iff. rewrite Hc, IH; done.
Qed.

Lemma take_while_forall p s : forallb p (take_while p s) = true.
Proof. induction s as [|c s IH]; simpl; [done|]. destruct (p c) eqn:E; simpl; [rewrite E|]; done. Qed.

Lemma drop_while_nil p s : drop_while p s = [] <-> forallb p s = true.
Proof.
  induction s as [|c s IH]; simpl; [done|].
  destruct (p c); simpl; [done|]. split; discriminate.
Qed.

Lemma take_while_app p s c rest :
  forallb p s = true -> p c = false -> take_while p (s ++ c :: rest) = s.
Proof.
  intros Hs Hc. induction s as [|d s IH]; simpl in *.
  - by rewrite Hc.
  - apply andb_true_iff in Hs as [Hd Hs]. rewrite Hd, IH; done.
Qed.

Lemma drop_while_app p s c rest :
  forallb p s = true -> p c = false -> drop_while p (s ++ c :: rest) = c :: rest.
Proof.
  intros Hs Hc. induction s as [|d s IH]; simpl in *.
  - by rewrite Hc.
  - apply andb_true_iff in Hs as [Hd Hs]. rewrite Hd, IH; done.
Qed.

(** When the continuation rejects every rest that begins with a unit of the
    class, giving characters back never helps: a greedy repetition takes the
    whole leading run, and matches when its length is within the bounds. *)
Lemma rep_greedy {A} p lo hi s (k : jsstring -> option A) :
  (forall c s', p c = true -> k (c :: s') = None) ->
  rep p lo hi s k =
    if decide (within lo hi (length (take_while p s))) then k (drop_while p s) else None.
Proof.
  intros Hk. revert lo hi.
  induction s as [|c s IH]; intros lo hi; simpl.
  - destruct lo; case_decide as Hw; unfold within in Hw; simpl in Hw; try done.
    + destruct Hw. split; [lia|]. by destruct hi; [lia|].
    + lia.
  - destruct (p c) eqn:Hc; simpl.
    + case_bool_decide as Hhi; simpl.
      * subst hi. rewrite decide_False by (unfold within; simpl; lia).
        destruct lo; [by apply Hk|done].
      * rewrite IH.
        assert (within (pred lo) (pred <$> hi) (length (take_while p s)) <->
                within lo hi (S (length (take_while p s)))) as Hiff.
        { unfold within. destruct hi as [[|h]|]; simpl; [done| |]; lia. }
        destruct (decide (within (pred lo) _ _)) as [Hw|Hw].
        -- rewrite decide_True by (by apply Hiff).
           destruct (k (drop_while p s)) eqn:Ek; [done|].
           destruct lo; [by apply Hk|done].
        -- rewrite decide_False by (by rewrite <- Hiff).
           destruct lo; [by apply Hk|done].
    + destruct lo.
      * rewrite decide_True; [done|]. unfold within. split; [simpl; lia|].
        destruct hi; simpl; [lia|done].
      * rewrite decide_False; [done|]. unfold within. simpl. lia.
Qed.

(** The source pattern, unfolded. *)
Lemma topicPattern_test s :
  test_anchored topicPattern s = true <->
  exists c rest, s = c :: rest /\ letter c = true /\ forallb topic_char rest = true /\
    (2 <= length rest <= 254)%nat.
Proof.
  unfold test_anchored, match_anchored, topicPattern. simpl.
  rewrite bool_decide_eq_true.
  destruct s as [|c rest]; simpl.
  { split; [intros [? ?]; done|intros (? & ? & ? & _); done]. }
  destruct (letter c) eqn:Hc.
  2:{ split; [intros [? ?]; done|]. intros (? & ? & [= <- <-] & ? & _). congruence. }
  rewrite rep_greedy by done.
  case_decide as Hw.
  - destruct (drop_while topic_char rest) eqn:Hd.
    + apply drop_while_nil in Hd. rewrite (take_while_all _ _ Hd) in Hw.
      split; [|by eauto]. intros _. exists c, rest. destruct Hw. done.
    + split; [intros [? ?]; done|]. intros (? & ? & [= <- <-] & _ & Hall & _).
      apply drop_while_nil in Hall. congruence.
  - split; [intros [? ?]; done|]. intros (? & ? & [= <- <-] & _ & Hall & Hlen).
    rewrite (take_while_all _ _ Hall) in Hw. destruct Hw. split; [lia|simpl; lia].
Qed.

Lemma valid_topic_name_test s :
  test_anchored topicPattern s = true <-> Spec.valid_topic_name s.
Proof.
  rewrite topicPattern_test. unfold Spec.valid_topic_name. split.
  - intros (c & rest & -> & Hc & Hall & Hlen). simpl. split; [lia|]. split.
    + exists c, rest. by rewrite <- letter_spec.
    + constructor.
      * left. by apply letter_spec.
      * apply Forall_forall. intros x Hx. apply topic_char_spec.
        rewrite forallb_forall in Hall. apply Hall. by apply list_elem_of_In.
  - intros (Hlen & (c & rest & -> & Hc) & Hall). exists c, rest.
    apply Forall_cons in Hall as [_ Hall]. simpl in Hlen.
    split; [done|]. split; [by apply letter_spec|]. split; [|lia].
    apply forallb_forall. intros x Hx. apply topic_char_spec.
    rewrite Forall_forall in Hall. apply Hall. by apply list_elem_of_In.
Qed.

(** C3. [validateTopicName] accepts exactly the names that start with a letter,
    are 3 to 255 characters long and have only letters, digits and the
    characters [. _ ~ + % -]; every other string is rejected with the
    invalid-name error. In particular the empty string, a name that starts
    with a digit, a name with a slash, and a name of at most 2 or of more than
    255 characters are rejected. *)
Theorem validateTopicName_accepts_exactly_valid_names (s : jsstring) :
  (Spec.valid_topic_name s -> validateTopicName s = Return tt) /\
  (~ Spec.valid_topic_name s ->
     validateTopicName s = Throw (ErrorObj (invalid_topic_name_message s))) /\
  (s = [] \/ (exists c rest, s = c :: rest /\ Spec.is_digit c) \/ ch "/" ∈ s \/
   (length s <= 2)%nat \/ (255 < length s)%nat ->
     validateTopicName s = Throw (ErrorObj (invalid_topic_name_message s))).
Proof.
  assert (~ Spec.valid_topic_name s ->
     validateTopicName s = Throw (ErrorObj (invalid_topic_name_message s))) as Hrej.
  { unfold validateTopicName. intros Hv.
    destruct (test_anchored topicPattern s) eqn:E; [|done].
    apply valid_topic_name_test in E. done. }
  split; [|split; [done|]].
  - intros Hv. apply valid_topic_name_test in Hv. unfold validateTopicName. by rewrite Hv.
  - intros Hbad. apply Hrej. intros (Hlen & (c & rest & -> & Hc) & Hall).
    destruct Hbad as [?|[(d & rest' & [= <- <-] & Hd)|[Hin|[?|?]]]]; try done; try lia.
    + unfold Spec.is_letter, Spec.is_digit, ch in *. simpl in *. lia.
    + rewrite Forall_forall in Hall. specialize (Hall _ Hin).
      unfold Spec.is_allowed, Spec.is_letter, Spec.is_digit in Hall.
      rewrite !elem_of_cons, elem_of_nil in Hall. unfold ch in Hall. simpl in Hall. lia.
Qed.

Lemma validateTopicName_accepts_exactly_valid_names_witness :
  validateTopicName (lit "events-topic") = Return tt /\
  validateTopicName (lit "9lives") =
    Throw (ErrorObj (invalid_topic_name_message (lit "9lives"))) /\
  validateTopicName (lit "a/b") = Throw (ErrorObj (invalid_topic_name_message (lit "a/b"))).
Proof.
  split; [|split].
  - apply (proj1 (validateTopicName_accepts_exactly_valid_names (lit "events-topic"))).
    split; [simpl; lia|]. split.
    + eexists _, _. split; [reflexivity|]. left. unfold ch. simpl. lia.
    + apply Forall_forall. intros c Hc. apply topic_char_spec.
      apply list_elem_of_In in Hc. revert c Hc. apply forallb_forall. reflexivity.
  - apply (proj1 (proj2 (validateTopicName_accepts_exactly_valid_names (lit "9lives")))).
    intros Hv. apply valid_topic_name_test in Hv. vm_compute in Hv. discriminate.
  - apply (proj2 (proj2 (validateTopicName_accepts_exactly_valid_names (lit "a/b")))).
    right. right. left. vm_compute. apply list_elem_of_In. simpl. tauto.
Defined.

(** ** Durations *)

Lemma unit_char_spec c : unit_char c = true <-> Spec.is_unit c.
Proof.
  unfold unit_char, Spec.is_unit. rewrite !orb_true_iff, !is_ch_spec.
  rewrite !elem_of_cons, elem_of_nil. tauto.
Qed.

Lemma digit_not_unit c : digit c = true -> unit_char c = false.
Proof.
  rewrite digit_spec. intros Hd. apply not_true_is_false. rewrite unit_char_spec.
  unfold Spec.is_digit, Spec.is_unit, ch in *. simpl in *.
  rewrite !elem_of_cons, elem_of_nil. lia.
Qed.

Lemma take_length_drop_while p s :
  take (length s - length (drop_while p s)) s = take_while p s.
Proof.
  generalize (take_drop_while p s).
  generalize (take_while p s) (drop_while p s). intros t d <-.
  rewrite length_app, Nat.add_sub. by rewrite take_app_length.
Qed.

(** The source pattern, unfolded: the match is the leading run of digits and
    the one unit that follows it. *)
Lemma durationPattern_match s :
  match_anchored durationPattern s =
    match drop_while digit s with
    | [u] =>
        if unit_char u && bool_decide (take_while digit s <> []) then
          Some [take_while digit s; [u]]
        else None
    | _ => None
    end.
Proof.
  unfold match_anchored, durationPattern. simpl.
  rewrite rep_greedy.
  2:{ intros c s' Hc. by rewrite (digit_not_unit _ Hc). }
  rewrite take_length_drop_while.
  destruct (drop_while digit s) as [|u [|? ?]] eqn:Hd.
  - by case_decide.
  - case_decide as Hw.
    + destruct (unit_char u); simpl; [|done].
      rewrite bool_decide_eq_true_2; [done|].
      destruct Hw as [Hw _]. destruct (take_while digit s); simpl in *; [lia|done].
    + destruct (unit_char u); simpl; [|done].
      rewrite bool_decide_eq_false_2; [done|].
      intros Hne. apply Hw. split; [|done].
      destruct (take_while digit s); simpl; [done|lia].
  - case_decide; [|done]. by destruct (unit_char u).
Qed.

Lemma forallb_digit ds : forallb digit ds = true <-> Forall Spec.is_digit ds.
Proof.
  rewrite forallb_forall, Forall_forall. split; intros Hall c Hc.
  - apply digit_spec, Hall. by apply list_elem_of_In.
  - apply digit_spec, Hall. by apply list_elem_of_In.
Qed.

Lemma duration_text_match s :
  Spec.duration_text s <->
  exists ds u, s = ds ++ [u] /\ match_anchored durationPattern s = Some [ds; [u]] /\
    ds <> [] /\ Forall Spec.is_digit ds /\ Spec.is_unit u.
Proof.
  split.
  - intros (ds & u & -> & Hne & Hds & Hu). exists ds, u. split; [done|].
    split; [|done]. rewrite durationPattern_match.
    apply forallb_digit in Hds. apply unit_char_spec in Hu.
    assert (digit u = false) as Hnd.
    { destruct (digit u) eqn:E; [|done]. apply digit_not_unit in E. congruence. }
    rewrite (drop_while_app _ _ _ _ Hds Hnd), (take_while_app _ _ _ _ Hds Hnd), Hu.
    by rewrite bool_decide_eq_true_2.
  - intros (ds & u & -> & _ & ? & ? & ?). by exists ds, u.
Qed.

Lemma not_duration_text_match s :
  ~ Spec.duration_text s -> match_anchored durationPattern s = None.
Proof.
  intros Hn. rewrite durationPattern_match.
  destruct (drop_while digit s) as [|u [|? ?]] eqn:Hd; [done| |done].
  destruct (unit_char u) eqn:Hu; [|done]. simpl.
  case_bool_decide as Hne; [|done]. exfalso. apply Hn.
  exists (take_while digit s), u. rewrite <- Hd, take_drop_while.
  split; [done|]. split; [done|]. split; [|by apply unit_char_spec].
  apply forallb_digit, take_while_forall.
Qed.

(** *** Rounding *)

Section Rounding.

Local Open Scope Z_scope.

Lemma round_double_exact z : z < 2 ^ 53 -> round_double z = Fin z.
Proof. intros Hz. unfold round_double. by destruct (Z.ltb_spec z (2 ^ 53)); [|lia]. Qed.

(** A significand of 53 bits with an exponent is a double: rounding keeps it. *)
Lemma round_double_scaled q e :
  2 ^ 52 <= q <= 2 ^ 53 -> 1 <= e -> q * 2 ^ e < 2 ^ 1024 ->
  round_double (q * 2 ^ e) = Fin (q * 2 ^ e).
Proof.
  intros Hq He Hlt.
  assert (0 < 2 ^ e) as Hpe by (apply Z.pow_pos_nonneg; lia).
  assert (2 ^ 53 <= q * 2 ^ e) as Hbig.
  { replace (2 ^ 53) with (2 ^ 52 * 2 ^ 1) by reflexivity.
    apply Z.mul_le_mono_nonneg; try lia. apply Z.pow_le_mono_r; lia. }
  unfold round_double.
  destruct (Z.ltb_spec (q * 2 ^ e) (2 ^ 53)) as [?|_]; [lia|].
  assert (exists q2 e2, q * 2 ^ e = q2 * 2 ^ e2 /\ 2 ^ 52 <= q2 < 2 ^ 53 /\ 1 <= e2) as
    (q2 & e2 & Heq & Hq2 & He2).
  { destruct (Z.eq_dec q (2 ^ 53)) as [->|Hne].
    - exists (2 ^ 52), (e + 1). split; [|lia].
      rewrite Z.pow_add_r by lia. change (2 ^ 53) with (2 ^ 52 * 2 ^ 1). ring.
    - exists q, e. lia. }
  rewrite Heq in *. clear Heq Hq He Hpe q e.
  assert (0 < 2 ^ e2) as Hpe by (apply Z.pow_pos_nonneg; lia).
  assert (Z.log2 (q2 * 2 ^ e2) = 52 + e2) as Hlog.
  { apply Z.log2_unique; [lia|].
    replace (Z.succ (52 + e2)) with (53 + e2) by lia. rewrite !Z.pow_add_r by lia.
    split; [apply Z.mul_le_mono_nonneg_r; lia|apply Z.mul_lt_mono_pos_r; lia]. }
  rewrite Hlog. replace (52 + e2 - 52) with e2 by lia.
  rewrite Z.shiftr_div_pow2 by lia. rewrite Z.div_mul by lia.
  replace (2 ^ e2 - 1) with (Z.ones e2) by (rewrite Z.ones_equiv; lia).
  rewrite Z.land_ones by lia. rewrite Z.mod_mul by lia.
  assert (0 < 2 ^ (e2 - 1)) as Hh by (apply Z.pow_pos_nonneg; lia).
  destruct (Z.ltb_spec (2 ^ (e2 - 1)) 0) as [?|_]; [lia|].
  destruct (Z.eqb_spec 0 (2 ^ (e2 - 1))) as [?|_]; [lia|]. cbn [orb andb].
  rewrite Z.shiftl_mul_pow2 by lia.
  destruct (Z.leb_spec (2 ^ 1024) (q2 * 2 ^ e2)) as [?|_]; [lia|]. reflexivity.
Qed.

(** A rounded value is a double. *)
Lemma round_double_idem z v : 0 <= z -> round_double z = Fin v -> round_double v = Fin v.
Proof.
  intros Hz. unfold round_double at 1.
  destruct (Z.ltb_spec z (2 ^ 53)) as [Hlt|Hge].
  { intros [= <-]. by apply round_double_exact. }
  set (e := Z.log2 z - 52). set (q := Z.shiftr z e).
  cbv zeta.
  set (q' := if _ : bool then (q + 1) else q).
  destruct (Z.leb_spec (2 ^ 1024) (Z.shiftl q' e)) as [?|Hfin]; [discriminate|].
  intros [= <-].
  assert (53 <= Z.log2 z) as Hl by (apply Z.log2_le_pow2; lia).
  assert (1 <= e) as He by (unfold e; lia).
  assert (0 < 2 ^ e) as Hpe by (apply Z.pow_pos_nonneg; lia).
  assert (2 ^ 52 <= q < 2 ^ 53) as Hq.
  { unfold q. rewrite Z.shiftr_div_pow2 by lia.
    destruct (Z.log2_spec z) as [Hlo Hhi]; [lia|].
    replace (Z.log2 z) with (52 + e) in Hlo by (unfold e; lia).
    replace (Z.succ (Z.log2 z)) with (53 + e) in Hhi by (unfold e; lia).
    rewrite Z.pow_add_r in Hlo, Hhi by lia.
    split.
    - apply Z.div_le_lower_bound; lia.
    - apply Z.div_lt_upper_bound; lia. }
  rewrite Z.shiftl_mul_pow2 in * by lia.
  apply round_double_scaled; [|done|done].
  unfold q'. destruct (_ || _); lia.
Qed.

(** Multiplying a double by one gives it back. *)
Lemma mul_one_round_double z : 0 <= z -> Num.mul (round_double z) (Fin 1) = round_double z.
Proof.
  intros Hz. destruct (round_double z) as [v| |] eqn:E; simpl; [|done|done].
  rewrite Z.mul_1_r. by apply (round_double_idem z).
Qed.

Lemma digits_value_nonneg ds : 0 <= digits_value ds.
Proof.
  unfold digits_value.
  assert (forall a, 0 <= a ->
    0 <= fold_left (fun acc c => 10 * acc + Z.of_N (c - ch "0")) ds a) as Hfold.
  { induction ds as [|c ds IH]; intros a Ha; simpl; [done|]. apply IH. lia. }
  by apply Hfold.
Qed.

End Rounding.

Lemma parseInt10_digits ds :
  ds <> [] -> Forall Spec.is_digit ds -> parseInt10 ds = round_double (digits_value ds).
Proof.
  intros Hne Hds. unfold parseInt10.
  rewrite take_while_all by (by apply forallb_digit). by destruct ds.
Qed.

Lemma seconds_of_factor z u :
  (0 <= z)%Z -> Spec.is_unit u ->
  seconds_of (round_double z) [u] = Num.mul (round_double z) (Fin (Spec.factor u)).
Proof.
  intros Hz Hu. unfold Spec.is_unit in Hu.
  rewrite !elem_of_cons, elem_of_nil in Hu.
  destruct Hu as [->|[->|[->|[->|[]]]]]; try reflexivity.
  symmetry. by apply mul_one_round_double.
Qed.

(** C6. [parseDuration] rejects exactly the strings that are not one or more
    digits followed by one of [d], [h], [m], [s]. For the others it returns
    [seconds] = value x factor, the product of JavaScript numbers, with the
    factors 86400, 3600, 60 and 1; that is the exact product whenever it is
    below 2^53. [nanos] is never populated. So ["7d"] gives 604800, ["600s"]
    gives 600, ["1h"] gives 3600, and ["5x"] and ["d5"] are rejected. *)
Theorem parseDuration_rejects_exactly_and_converts :
  (forall s, ~ Spec.duration_text s ->
     parseDuration s = Throw (ErrorObj (invalid_duration_message s))) /\
  (forall ds u, ds <> [] -> Forall Spec.is_digit ds -> Spec.is_unit u ->
     parseDuration (ds ++ [u]) =
       Return {| seconds := Some (Num.mul (parseInt10 ds) (Fin (Spec.factor u)));
                 nanos := None |} /\
     parseInt10 ds = round_double (digits_value ds) /\
     ((digits_value ds * Spec.factor u < 2 ^ 53)%Z ->
        Num.mul (parseInt10 ds) (Fin (Spec.factor u)) =
          Fin (digits_value ds * Spec.factor u))) /\
  Spec.factor (ch "d") = 86400%Z /\ Spec.factor (ch "h") = 3600%Z /\
  Spec.factor (ch "m") = 60%Z /\ Spec.factor (ch "s") = 1%Z /\
  parseDuration (lit "7d") = Return {| seconds := Some (Fin 604800); nanos := None |} /\
  parseDuration (lit "600s") = Return {| seconds := Some (Fin 600); nanos := None |} /\
  parseDuration (lit "1h") = Return {| seconds := Some (Fin 3600); nanos := None |} /\
  parseDuration (lit "5x") = Throw (ErrorObj (invalid_duration_message (lit "5x"))) /\
  parseDuration (lit "d5") = Throw (ErrorObj (invalid_duration_message (lit "d5"))).
Proof.
  split; [|split].
  - intros s Hn. unfold parseDuration. by rewrite not_duration_text_match.
  - intros ds u Hne Hds Hu.
    pose proof (digits_value_nonneg ds) as Hz.
    pose proof (parseInt10_digits ds Hne Hds) as Hp.
    split; [|split; [done|]].
    + assert (Spec.duration_text (ds ++ [u])) as Ht by (by exists ds, u).
      apply duration_text_match in Ht as (ds' & u' & Heq & Hm & _).
      apply app_inj_tail in Heq as [<- <-].
      unfold parseDuration. rewrite Hm. simpl.
      rewrite Hp. by rewrite seconds_of_factor.
    + intros Hlt. rewrite Hp.
      assert (1 <= Spec.factor u)%Z as Hf.
      { unfold Spec.factor. repeat case_bool_decide; lia. }
      rewrite round_double_exact by nia. simpl. by apply round_double_exact.
  - repeat split; reflexivity.
Qed.

Lemma parseDuration_rejects_exactly_and_converts_witness :
  parseDuration (lit "30m") = Return {| seconds := Some (Fin 1800); nanos := None |} /\
  parseDuration (lit "1.5h") = Throw (ErrorObj (invalid_duration_message (lit "1.5h"))).
Proof.
  destruct parseDuration_rejects_exactly_and_converts as (Hrej & Hconv & _).
  split.
  - destruct (Hconv (lit "30") (ch "m")) as (Heq & _ & Hexact).
    + discriminate.
    + apply forallb_digit. reflexivity.
    + apply unit_char_spec. reflexivity.
    + change (lit "30" ++ [ch "m"]) with (lit "30m") in Heq.
      rewrite Heq, Hexact; [reflexivity|]. vm_compute. reflexivity.
  - apply Hrej. intros Ht. apply duration_text_match in Ht as (ds & u & _ & Hm & _).
    vm_compute in Hm. discriminate.
Defined.

(** ** The orchestration *)

Lemma starts_with_app n rest : starts_with n (n ++ rest) = true.
Proof. induction n as [|c n IH]; simpl; [done|]. by rewrite N.eqb_refl. Qed.

Lemma includes_starts_with n hay : starts_with n hay = true -> includes n hay = true.
Proof. intros Hs. destruct hay; simpl; by rewrite Hs. Qed.

Lemma includes_app n pre post : includes n (pre ++ n ++ post) = true.
Proof.
  induction pre as [|c pre IH].
  - rewrite app_nil_l. apply includes_starts_with, starts_with_app.
  - simpl. rewrite IH. apply orb_true_r.
Qed.

Lemma includes_intro n pre post hay : hay = pre ++ n ++ post -> includes n hay = true.
Proof. intros ->. apply includes_app. Qed.

Section OrchestrationProperties.

Context {St : Type} `{Engine} `{PubSub St}.

Lemma extend_base (w : World St) : extend w (base w) = w.
Proof. destruct w. unfold extend, base. simpl. by rewrite !app_nil_r. Qed.

Lemma extend_assoc (w w1 w2 : World St) :
  extend (extend w w1) w2 = extend w (extend w1 w2).
Proof. unfold extend. simpl. by rewrite !app_assoc. Qed.

Lemma framed_ret {A} (a : A) : framed (@action_ret St A a).
Proof. intros w. unfold action_ret. simpl. by rewrite extend_base. Qed.

Lemma framed_throw {A} e : framed (@throw St A e).
Proof. intros w. unfold throw. simpl. by rewrite extend_base. Qed.

Lemma framed_lift {A} (r : result A) : framed (@lift St A r).
Proof. intros w. unfold lift. simpl. by rewrite extend_base. Qed.

Lemma framed_emit e : framed (@emit St e).
Proof. intros [s c l]. unfold emit, extend, base. simpl. by rewrite app_nil_r. Qed.

Lemma framed_request {A} c (f : St -> result A * St) : framed (request c f).
Proof.
  intros [s cs l]. unfold request, extend, base. simpl.
  destruct (f s). simpl. by rewrite app_nil_r.
Qed.

Lemma framed_bind {A B} (c : Action St A) (k : A -> Action St B) :
  framed c -> (forall a, framed (k a)) -> framed (action_bind c k).
Proof.
  intros Hc Hk w. unfold action_bind. rewrite (Hc w).
  destruct (c (base w)) as [[a|e] w0]; simpl; [|done].
  rewrite (Hk a). rewrite (Hk a w0). simpl. by rewrite extend_assoc.
Qed.

Lemma framed_try_catch {A} (body : Action St A) handler :
  framed body -> (forall e, framed (handler e)) -> framed (try_catch body handler).
Proof.
  intros Hb Hh w. unfold try_catch. rewrite (Hb w).
  destruct (body (base w)) as [[a|e] w0]; simpl; [done|].
  rewrite (Hh e). rewrite (Hh e w0). simpl. by rewrite extend_assoc.
Qed.

Ltac framed_step :=
  first
    [ apply framed_ret | apply framed_throw | apply framed_lift | apply framed_emit
    | apply framed_request
    | apply framed_bind; [|intros ?]
    | apply framed_try_catch; [|intros ?]
    | match goal with
      | |- framed (match ?x with _ => _ end) => destruct x
      end ].

Lemma framed_checkTopicExists n : framed (checkTopicExists n).
Proof. unfold checkTopicExists, core_warning. repeat framed_step. Qed.

Lemma framed_set_metadata config t : framed (set_metadata config t).
Proof. unfold set_metadata, core_info. repeat framed_step. Qed.

Lemma framed_createTopic config : framed (createTopic config).
Proof.
  unfold createTopic, createTopic_try, core_info, core_error.
  repeat first [apply framed_checkTopicExists | apply framed_set_metadata | framed_step].
Qed.

Lemma framed_calls {A} (a : Action St A) w :
  framed a -> exists later, calls (snd (a w)) = calls w ++ later.
Proof. intros Ha. rewrite (Ha w). simpl. eauto. Qed.

(** Running a [try] block one statement at a time. *)
Lemma try_catch_bind {A B} (c : Action St A) (k : A -> Action St B) handler w :
  try_catch (action_bind c k) handler w =
    match c w with
    | (Return a, w') => try_catch (k a) handler w'
    | (Throw e, w') => handler e w'
    end.
Proof. unfold try_catch, action_bind. by destruct (c w) as [[a|e] w']. Qed.

Lemma try_catch_info {B} message (k : unit -> Action St B) handler w :
  try_catch (action_bind (core_info message) k) handler w =
    try_catch (k tt) handler (mkWorld (service w) (calls w) (log w ++ [Info message])).
Proof. by rewrite try_catch_bind. Qed.

Lemma try_catch_ret {A} (a : A) handler (w : World St) :
  try_catch (action_ret a) handler w = (Return a, w).
Proof. done. Qed.

Lemma try_catch_throw {A} e (handler : Thrown -> Action St A) (w : World St) :
  try_catch (throw e) handler w = handler e w.
Proof. done. Qed.

(** What the [catch] block of [createTopic] does. *)
Lemma createTopic_catch e (w : World St) :
  (core_error (lit "Failed to create topic: " ++ errorMessage e);;;
   action_ret (TopicResult.mk false None None (Some (errorMessage e)))) w =
  (Return (TopicResult.mk false None None (Some (errorMessage e))),
   mkWorld (service w) (calls w)
     (log w ++ [Error (lit "Failed to create topic: " ++ errorMessage e)])).
Proof. done. Qed.

(** The run of [createTopic] up to the answer of the existence check. *)
Lemma createTopic_after_check config w check w1 :
  validateTopicName (TopicConfig.topicName config) = Return tt ->
  checkTopicExists (TopicConfig.topicName config)
    (mkWorld (service w) (calls w)
       (log w ++ [Info (lit "Topic name: " ++ TopicConfig.topicName config)])) =
    (Return check, w1) ->
  createTopic config w =
    try_catch
      (match exists_ check, topic check with
       | true, Some existing =>
           if TopicConfig.skipIfExists config then
             let fullName := name existing in
             core_info (check_mark ++ lit " Topic already exists: " ++ fullName);;;
             core_info (lit "Skip-if-exists is enabled, treating as success");;;
             action_ret (TopicResult.mk true (Some fullName) (Some false) None)
           else throw (ErrorObj (already_exists_message (TopicConfig.topicName config)))
       | _, _ =>
           core_info (lit "Creating new topic...");;;
           let* topic :=
             request (CreateTopicCall (TopicConfig.topicName config))
               (pubsub_createTopic (TopicConfig.topicName config)) in
           core_info (check_mark ++ lit " Topic created");;;
           (if wants_metadata config then set_metadata config topic else action_ret tt);;;
           core_info (check_mark ++ lit " Topic created successfully");;;
           core_info (lit "Topic name: " ++ name topic);;;
           action_ret (TopicResult.mk true (Some (name topic)) (Some true) None)
       end)
      (fun error =>
         core_error (lit "Failed to create topic: " ++ errorMessage error);;;
         action_ret (TopicResult.mk false None None (Some (errorMessage error))))
      w1.
Proof.
  intros Hv Hc. unfold createTopic, createTopic_try.
  rewrite try_catch_bind. unfold lift at 1. rewrite Hv.
  rewrite try_catch_info, try_catch_bind. by rewrite Hc.
Qed.

(** *** The existence check *)

Lemma checkTopicExists_answer n w t b s' :
  pubsub_topic n = Return t -> topic_exists t (service w) = (Return b, s') ->
  checkTopicExists n w =
    (Return (mkExistsCheck b (if b then Some t else None)),
     mkWorld s' (calls w ++ [ExistsCall t]) (log w)).
Proof.
  intros Ht Hq. unfold checkTopicExists, try_catch, action_bind, lift, request, action_ret.
  by rewrite Ht, Hq.
Qed.

Lemma checkTopicExists_query_fails n w t e s' :
  pubsub_topic n = Return t -> topic_exists t (service w) = (Throw e, s') ->
  checkTopicExists n w =
    (Return (mkExistsCheck false None),
     mkWorld s' (calls w ++ [ExistsCall t])
       (log w ++ [Warning (lit "Failed to check if topic exists: " ++ errorMessage e)])).
Proof.
  intros Ht Hq. unfold checkTopicExists, try_catch, action_bind, lift, request, action_ret.
  by rewrite Ht, Hq.
Qed.

Lemma checkTopicExists_no_handle n w e :
  pubsub_topic n = Throw e ->
  checkTopicExists n w =
    (Return (mkExistsCheck false None),
     mkWorld (service w) (calls w)
       (log w ++ [Warning (lit "Failed to check if topic exists: " ++ errorMessage e)])).
Proof.
  intros Ht. unfold checkTopicExists, try_catch, action_bind, lift, request, action_ret.
  by rewrite Ht.
Qed.

(** C4. [checkTopicExists] never throws. When the existence query fails, for
    whatever was thrown, it logs a warning with the message and returns
    [exists = false] with no topic handle; the same holds when the handle
    cannot even be built. [createTopic] then goes on to the creation request:
    the failure of the query is not the error of the run. *)
Theorem checkTopicExists_swallows_query_failure (n : jsstring) (w : World St) :
  (exists check w', checkTopicExists n w = (Return check, w')) /\
  (forall t e s',
     pubsub_topic n = Return t -> topic_exists t (service w) = (Throw e, s') ->
     checkTopicExists n w =
       (Return (mkExistsCheck false None),
        mkWorld s' (calls w ++ [ExistsCall t])
          (log w ++ [Warning (lit "Failed to check if topic exists: " ++ errorMessage e)])) /\
     forall config,
       TopicConfig.topicName config = n -> validateTopicName n = Return tt ->
       exists later,
         calls (snd (createTopic config w)) =
           calls w ++ ExistsCall t :: CreateTopicCall n :: later) /\
  (forall e,
     pubsub_topic n = Throw e ->
     checkTopicExists n w =
       (Return (mkExistsCheck false None),
        mkWorld (service w) (calls w)
          (log w ++ [Warning (lit "Failed to check if topic exists: " ++ errorMessage e)]))).
Proof.
  split; [|split].
  - destruct (pubsub_topic n) as [t|e] eqn:Ht.
    + destruct (topic_exists t (service w)) as [[b|e] s'] eqn:Hq.
      * rewrite (checkTopicExists_answer _ _ _ _ _ Ht Hq). eauto.
      * rewrite (checkTopicExists_query_fails _ _ _ _ _ Ht Hq). eauto.
    + rewrite (checkTopicExists_no_handle _ _ _ Ht). eauto.
  - intros t e s' Ht Hq. split; [by apply checkTopicExists_query_fails|].
    intros config <- Hv.
    erewrite createTopic_after_check;
      [|done|by apply checkTopicExists_query_fails].
    cbn [exists_ topic]. rewrite try_catch_info, try_catch_bind.
    unfold request at 1. cbn [service calls log].
    destruct (pubsub_createTopic (TopicConfig.topicName config) s') as [[tp|e'] s2].
    + match goal with
      | |- context [try_catch ?body ?handler ?w2] =>
          destruct (framed_calls (try_catch body handler) w2) as [later Hl]
      end.
      { unfold core_info, core_error.
        repeat first [apply framed_set_metadata | framed_step]. }
      rewrite Hl. cbn [calls]. exists later. by rewrite <- !app_assoc.
    + rewrite createTopic_catch. cbn [snd calls]. exists []. by rewrite <- !app_assoc.
  - intros e Ht. by apply checkTopicExists_no_handle.
Qed.

(** *** Create or skip *)

(** The skip path, step by step. *)
Lemma createTopic_skip_run (config : TopicConfig.t) (w : World St) (t : Topic) (s' : St) :
  validateTopicName (TopicConfig.topicName config) = Return tt ->
  pubsub_topic (TopicConfig.topicName config) = Return t ->
  topic_exists t (service w) = (Return true, s') ->
  TopicConfig.skipIfExists config = true ->
  createTopic config w =
    (Return (TopicResult.mk true (Some (name t)) (Some false) None),
     mkWorld s' (calls w ++ [ExistsCall t])
       (log w ++
        [Info (lit "Topic name: " ++ TopicConfig.topicName config);
         Info (check_mark ++ lit " Topic already exists: " ++ name t);
         Info (lit "Skip-if-exists is enabled, treating as success")])).
Proof.
  intros Hv Ht Hq Hskip.
  erewrite createTopic_after_check; [|done|by eapply checkTopicExists_answer].
  cbn [exists_ topic]. rewrite Hskip. cbn zeta.
  rewrite !try_catch_info, try_catch_ret. cbn [service calls log].
  by rewrite <- !app_assoc.
Qed.

(** C1. When the topic exists and [skipIfExists] is set, [createTopic] returns
    [{success: true, created: false, topicName: <the name of the existing
    topic's handle>}]; the only request made is the existence query: no create
    call and no metadata call. This holds whatever [labels], [kmsKeyName] and
    [messageRetentionDuration] hold: they are not even parsed. *)
Theorem createTopic_skips_existing_topic (config : TopicConfig.t) (w : World St)
    (t : Topic) (s' : St) :
  validateTopicName (TopicConfig.topicName config) = Return tt ->
  pubsub_topic (TopicConfig.topicName config) = Return t ->
  topic_exists t (service w) = (Return true, s') ->
  TopicConfig.skipIfExists config = true ->
  createTopic config w =
    (Return (TopicResult.mk true (Some (name t)) (Some false) None),
     mkWorld s' (calls w ++ [ExistsCall t])
       (log w ++
        [Info (lit "Topic name: " ++ TopicConfig.topicName config);
         Info (check_mark ++ lit " Topic already exists: " ++ name t);
         Info (lit "Skip-if-exists is enabled, treating as success")])).
Proof.
  intros Hv Ht Hq Hskip.
  pose proof (checkTopicExists_answer (TopicConfig.topicName config)
                (mkWorld (service w) (calls w)
                   (log w ++ [Info (lit "Topic name: " ++ TopicConfig.topicName config)]))
                t true s' Ht Hq) as Hcheck.
  rewrite (createTopic_after_check config w _ _ Hv Hcheck).
  cbn [exists_ topic service calls log]. rewrite Hskip. cbn zeta.
  rewrite try_catch_info, try_catch_info, try_catch_ret. cbn [service calls log].
  by rewrite <- !app_assoc.
Qed.

(** C5. When the topic exists and [skipIfExists] is not set, [createTopic]
    returns [{success: false}] with an error message that contains "already
    exists", quotes the topic name and tells the caller to set
    skip-if-exists; the only request made is the existence query. *)
Theorem createTopic_fails_on_existing_topic (config : TopicConfig.t) (w : World St)
    (t : Topic) (s' : St) :
  validateTopicName (TopicConfig.topicName config) = Return tt ->
  pubsub_topic (TopicConfig.topicName config) = Return t ->
  topic_exists t (service w) = (Return true, s') ->
  TopicConfig.skipIfExists config = false ->
  let message := already_exists_message (TopicConfig.topicName config) in
  createTopic config w =
    (Return (TopicResult.mk false None None (Some message)),
     mkWorld s' (calls w ++ [ExistsCall t])
       (log w ++
        [Info (lit "Topic name: " ++ TopicConfig.topicName config);
         Error (lit "Failed to create topic: " ++ message)])) /\
  includes (lit "already exists") message = true /\
  includes (dq ++ TopicConfig.topicName config ++ dq) message = true /\
  includes (lit "Set skip-if-exists=true") message = true.
Proof.
  intros Hv Ht Hq Hskip message. split; [|split; [|split]].
  - erewrite createTopic_after_check; [|done|by eapply checkTopicExists_answer].
    cbn [exists_ topic]. rewrite Hskip.
    rewrite try_catch_throw, createTopic_catch. cbn [service calls log errorMessage].
    by rewrite <- !app_assoc.
  - apply (includes_intro _ (lit "Topic " ++ dq ++ TopicConfig.topicName config ++ dq ++ [32])
             (lit ". Set skip-if-exists=true to succeed when topic exists.")).
    unfold message, already_exists_message. by rewrite <- !app_assoc.
  - apply (includes_intro _ (lit "Topic ")
             (lit " already exists. Set skip-if-exists=true to succeed when topic exists.")).
    unfold message, already_exists_message. by rewrite <- !app_assoc.
  - apply (includes_intro _
             (lit "Topic " ++ dq ++ TopicConfig.topicName config ++ dq ++ lit " already exists. ")
             (lit " to succeed when topic exists.")).
    unfold message, already_exists_message. by rewrite <- !app_assoc.
Qed.

(** The metadata block, when the update is refused. *)
Lemma set_metadata_fails config tp md e (w : World St) s' :
  metadata_of config = Return md ->
  topic_setMetadata tp md (service w) = (Throw e, s') ->
  exists l, set_metadata config tp w =
    (Throw e, mkWorld s' (calls w ++ [SetMetadataCall tp md]) l).
Proof.
  intros Hm Hs. unfold metadata_of, parse_optional in Hm.
  unfold set_metadata, action_bind, lift, core_info, emit, request, action_ret.
  destruct (truthy (TopicConfig.labels config)), (TopicConfig.labels config) as [text|];
    try destruct (parseLabels text);
    destruct (truthy (TopicConfig.messageRetentionDuration config)),
             (TopicConfig.messageRetentionDuration config) as [text'|];
    try destruct (parseDuration text');
    destruct (truthy (TopicConfig.kmsKeyName config)) eqn:Hk,
             (TopicConfig.kmsKeyName config) as [key|];
    try discriminate Hk; simplify_eq/=; rewrite Hs; eauto.
Qed.

(** C2. When the topic does not exist, the creation succeeds, some metadata
    is asked for and parses, and the metadata update fails, [createTopic]
    returns [{success: false, error: <the message of the failure>}]. The topic
    was created all the same: the requests are the existence query, the
    creation and the one metadata update, nothing undoes the creation, and the
    service is left in the state the failed update left it in. *)
Theorem createTopic_metadata_failure_after_creation (config : TopicConfig.t)
    (w : World St) (t tp : Topic) (md : Metadata.t) (e : Thrown) (s1 s2 s3 : St) :
  validateTopicName (TopicConfig.topicName config) = Return tt ->
  pubsub_topic (TopicConfig.topicName config) = Return t ->
  topic_exists t (service w) = (Return false, s1) ->
  pubsub_createTopic (TopicConfig.topicName config) s1 = (Return tp, s2) ->
  truthy (TopicConfig.labels config) = true \/
    truthy (TopicConfig.kmsKeyName config) = true \/
    truthy (TopicConfig.messageRetentionDuration config) = true ->
  metadata_of config = Return md ->
  topic_setMetadata tp md s2 = (Throw e, s3) ->
  fst (createTopic config w) =
    Return (TopicResult.mk false None None (Some (errorMessage e))) /\
  service (snd (createTopic config w)) = s3 /\
  calls (snd (createTopic config w)) =
    calls w ++ [ExistsCall t; CreateTopicCall (TopicConfig.topicName config);
                SetMetadataCall tp md].
Proof.
  intros Hv Ht Hq Hc Hwants Hm Hs.
  assert (wants_metadata config = true) as Hw.
  { unfold wants_metadata. destruct Hwants as [-> | [-> | ->]]; by rewrite ?orb_true_r. }
  assert (exists l, createTopic config w =
    (Return (TopicResult.mk false None None (Some (errorMessage e))),
     mkWorld s3
       (calls w ++ [ExistsCall t; CreateTopicCall (TopicConfig.topicName config);
                    SetMetadataCall tp md]) l)) as [l ->]; [|done].
  erewrite createTopic_after_check; [|done|by eapply checkTopicExists_answer].
  cbn [exists_ topic]. rewrite try_catch_info, try_catch_bind.
  unfold request at 1. cbn [service calls log]. rewrite Hc.
  rewrite try_catch_info, Hw, try_catch_bind.
  edestruct (set_metadata_fails config tp md e) as [l ->]; [done|exact Hs|].
  rewrite createTopic_catch. cbn [service calls log]. rewrite <- !app_assoc. eauto.
Qed.

(** C8. Two calls of [createTopic] in a row with the same configuration,
    [skipIfExists] set, return the same [TopicResult] when the second call
    finds the service in the state the first call found it in. (The calls and
    the log lines recorded so far differ; the result does not depend on them.)
    That is the case of a topic that exists and that the existence query
    leaves as it is: both calls return [{success: true, created: false}] with
    its name, and the service is unchanged after each. *)
Theorem createTopic_twice_same_result (config : TopicConfig.t) (w w1 w2 : World St)
    (r1 r2 : result TopicResult.t) :
  TopicConfig.skipIfExists config = true ->
  createTopic config w = (r1, w1) ->
  createTopic config w1 = (r2, w2) ->
  (service w1 = service w -> r1 = r2) /\
  (forall t,
     validateTopicName (TopicConfig.topicName config) = Return tt ->
     pubsub_topic (TopicConfig.topicName config) = Return t ->
     topic_exists t (service w) = (Return true, service w) ->
     r1 = Return (TopicResult.mk true (Some (name t)) (Some false) None) /\
     r2 = r1 /\ service w1 = service w /\ service w2 = service w).
Proof.
  intros Hskip H1 H2. split.
  - intros Hsame.
    pose proof (framed_createTopic config w) as F1.
    pose proof (framed_createTopic config w1) as F2.
    rewrite H1 in F1. rewrite H2 in F2.
    assert (base w1 = base w) as Hb by (unfold base; by rewrite Hsame).
    rewrite Hb in F2. congruence.
  - intros t Hv Ht Hq.
    rewrite (createTopic_skip_run config w t (service w) Hv Ht Hq Hskip) in H1.
    injection H1 as <- <-.
    erewrite createTopic_skip_run in H2; [|done|done|exact Hq|done].
    by injection H2 as <- <-.
Qed.

End OrchestrationProperties.

(** *** The theorems at work on the in-memory service *)

Lemma checkTopicExists_swallows_query_failure_witness :
  Fake.check (lit "events") (Fake.world Fake.unreachable) =
    (Return (mkExistsCheck false None),
     mkWorld Fake.unreachable [ExistsCall Fake.events]
       [Warning (lit "Failed to check if topic exists: 14 UNAVAILABLE: No connection established")]) /\
  exists later,
    calls (snd (Fake.create Fake.strict_config (Fake.world Fake.unreachable))) =
      ExistsCall Fake.events :: CreateTopicCall (lit "events") :: later.
Proof.
  destruct (@checkTopicExists_swallows_query_failure Fake.service Fake.engine
              (Fake.client (lit "p")) (lit "events") (Fake.world Fake.unreachable))
    as (_ & Hfail & _).
  destruct (Hfail Fake.events Fake.unavailable Fake.unreachable) as [Hcheck Hcreate].
  - reflexivity.
  - reflexivity.
  - split; [exact Hcheck|].
    apply (Hcreate Fake.strict_config); reflexivity.
Defined.

Lemma createTopic_skips_existing_topic_witness :
  fst (Fake.create Fake.skip_config (Fake.world Fake.with_events)) =
    Return (TopicResult.mk true (Some (lit "projects/p/topics/events")) (Some false) None) /\
  calls (snd (Fake.create Fake.skip_config (Fake.world Fake.with_events))) =
    [ExistsCall Fake.events] /\
  service (snd (Fake.create Fake.skip_config (Fake.world Fake.with_events))) =
    Fake.with_events.
Proof.
  unfold Fake.create.
  rewrite (@createTopic_skips_existing_topic Fake.service Fake.engine
             (Fake.client (lit "p")) Fake.skip_config (Fake.world Fake.with_events)
             Fake.events Fake.with_events);
    [repeat split| vm_compute; reflexivity ..].
Defined.

Lemma createTopic_fails_on_existing_topic_witness :
  fst (Fake.create Fake.strict_config (Fake.world Fake.with_events)) =
    Return (TopicResult.mk false None None
              (Some (quoted "Topic 'events' already exists. Set skip-if-exists=true to succeed when topic exists."))) /\
  calls (snd (Fake.create Fake.strict_config (Fake.world Fake.with_events))) =
    [ExistsCall Fake.events].
Proof.
  unfold Fake.create.
  destruct (@createTopic_fails_on_existing_topic Fake.service Fake.engine
              (Fake.client (lit "p")) Fake.strict_config (Fake.world Fake.with_events)
              Fake.events Fake.with_events) as [-> _];
    [vm_compute; reflexivity ..|].
  split; reflexivity.
Defined.

Lemma createTopic_metadata_failure_after_creation_witness :
  fst (Fake.create Fake.labelled_config (Fake.world Fake.refusing_metadata)) =
    Return (TopicResult.mk false None None
              (Some (lit "7 PERMISSION_DENIED: User not authorized to perform this action."))) /\
  calls (snd (Fake.create Fake.labelled_config (Fake.world Fake.refusing_metadata))) =
    [ExistsCall Fake.events; CreateTopicCall (lit "events");
     SetMetadataCall Fake.events Fake.labelled_metadata] /\
  Fake.topics (service (snd (Fake.create Fake.labelled_config
                               (Fake.world Fake.refusing_metadata))))
    !! name Fake.events = Some Fake.no_metadata.
Proof.
  unfold Fake.create.
  destruct (@createTopic_metadata_failure_after_creation Fake.service Fake.engine
              (Fake.client (lit "p")) Fake.labelled_config
              (Fake.world Fake.refusing_metadata) Fake.events Fake.events
              Fake.labelled_metadata Fake.permission_denied
              Fake.refusing_metadata
              (Fake.mkService {[ name Fake.events := Fake.no_metadata ]} None None
                 (Some Fake.permission_denied))
              (Fake.mkService {[ name Fake.events := Fake.no_metadata ]} None None
                 (Some Fake.permission_denied)))
    as (-> & -> & ->).
  - vm_compute; reflexivity.
  - vm_compute; reflexivity.
  - vm_compute; reflexivity.
  - vm_compute; reflexivity.
  - left. vm_compute; reflexivity.
  - vm_compute; reflexivity.
  - vm_compute; reflexivity.
  - repeat split; vm_compute; reflexivity.
Defined.

Lemma createTopic_twice_same_result_witness :
  fst (Fake.create Fake.skip_config
         (snd (Fake.create Fake.skip_config (Fake.world Fake.with_events)))) =
  fst (Fake.create Fake.skip_config (Fake.world Fake.with_events)) /\
  fst (Fake.create Fake.skip_config (Fake.world Fake.with_events)) =
    Return (TopicResult.mk true (Some (lit "projects/p/topics/events")) (Some false) None).
Proof.
  destruct (@createTopic_twice_same_result Fake.service Fake.engine (Fake.client (lit "p"))
              Fake.skip_config (Fake.world Fake.with_events)
              (snd (Fake.create Fake.skip_config (Fake.world Fake.with_events)))
              (snd (Fake.create Fake.skip_config
                      (snd (Fake.create Fake.skip_config (Fake.world Fake.with_events)))))
              (fst (Fake.create Fake.skip_config (Fake.world Fake.with_events)))
              (fst (Fake.create Fake.skip_config
                      (snd (Fake.create Fake.skip_config (Fake.world Fake.with_events))))))
    as [Hsame Hexisting].
  - reflexivity.
  - apply (surjective_pairing (Fake.create Fake.skip_config (Fake.world Fake.with_events))).
  - apply (surjective_pairing
             (Fake.create Fake.skip_config
                (snd (Fake.create Fake.skip_config (Fake.world Fake.with_events))))).
  - split.
    + symmetry. apply Hsame. vm_compute. reflexivity.
    + apply (Hexisting Fake.events); vm_compute; reflexivity.
Defined.

(** ** The inputs *)

(** Code units of character literals, as numbers. *)
Ltac ch_values :=
  unfold ch in *;
  repeat match goal with
  | |- context [N_of_ascii ?a] =>
      let v := eval vm_compute in (N_of_ascii a) in change (N_of_ascii a) with v
  | H : context [N_of_ascii ?a] |- _ =>
      let v := eval vm_compute in (N_of_ascii a) in change (N_of_ascii a) with v in H
  end.

Lemma lower_unit_lowercase c x :
  ch "a" <= x <= ch "z" -> lower_unit c = x <-> c = x \/ c + 32 = x.
Proof.
  unfold lower_unit, between. intros Hx. ch_values.
  destruct (N.leb_spec 65 c), (N.leb_spec c 90), (N.leb_spec 192 c), (N.leb_spec c 222),
    (N.eqb_spec c 215); cbn [andb negb]; lia.
Qed.

Lemma toLowerCase_true s : toLowerCase s = lit "true" <-> Spec.spells_true s.
Proof.
  unfold Spec.spells_true, toLowerCase. split.
  - destruct s as [|c1 [|c2 [|c3 [|c4 [|? ?]]]]]; try discriminate.
    intros [= H1 H2 H3 H4]. exists c1, c2, c3, c4. split; [done|].
    apply lower_unit_lowercase in H1, H2, H3, H4; try (ch_values; lia).
    rewrite !elem_of_cons, !elem_of_nil. ch_values. lia.
  - intros (c1 & c2 & c3 & c4 & -> & H1 & H2 & H3 & H4).
    rewrite !elem_of_cons, !elem_of_nil in H1, H2, H3, H4.
    destruct H1 as [->|[->|[]]], H2 as [->|[->|[]]], H3 as [->|[->|[]]],
      H4 as [->|[->|[]]]; reflexivity.
Qed.

(** C9, as the code has it. Reading the configuration does not reject any
    spelling of [skip-if-exists]: for every value of that input a
    configuration is built. [skipIfExists] is set exactly when the value is the
    word [true] in any mix of cases; the empty value stands for [false], and
    every other spelling also leaves [skipIfExists] unset. *)
Theorem skip_if_exists_any_other_spelling_is_false {St : Type}
    (getInput : jsstring -> bool -> result jsstring) (w : World St)
    (projectId topicName skip labels kmsKeyName retention : jsstring) :
  getInput (lit "project-id") true = Return projectId ->
  getInput (lit "topic-name") true = Return topicName ->
  getInput (lit "skip-if-exists") false = Return skip ->
  getInput (lit "labels") false = Return labels ->
  getInput (lit "kms-key-name") false = Return kmsKeyName ->
  getInput (lit "message-retention-duration") false = Return retention ->
  exists skipIfExists,
    fst (read_config getInput w) =
      Return (projectId,
              TopicConfig.mk topicName skipIfExists (or_undefined labels)
                (or_undefined kmsKeyName) (or_undefined retention)) /\
    (skipIfExists = true <-> Spec.spells_true skip) /\
    (~ Spec.spells_true skip -> skipIfExists = false) /\
    (skip = [] -> skipIfExists = false).
Proof.
  intros H1 H2 H3 H4 H5 H6.
  exists (bool_decide (toLowerCase (or_else skip (lit "false")) = lit "true")).
  assert (bool_decide (toLowerCase (or_else skip (lit "false")) = lit "true") = true <->
          Spec.spells_true skip) as Hiff.
  { rewrite bool_decide_eq_true. destruct skip as [|c skip']; simpl or_else.
    - split; [discriminate|]. intros (? & ? & ? & ? & ? & _). discriminate.
    - apply toLowerCase_true. }
  split; [|split; [done|split]].
  - unfold read_config, action_bind, lift, core_info, emit, action_ret.
    by rewrite H1, H2, H3, H4, H5, H6.
  - intros Hn. apply not_true_is_false. by rewrite Hiff.
  - intros ->. reflexivity.
Qed.

Lemma skip_if_exists_any_other_spelling_is_false_witness :
  fst (@read_config Fake.service (Fake.inputs (lit "TrUe")) (Fake.world Fake.empty)) =
    Return (lit "p", TopicConfig.mk (lit "events") true None None None) /\
  fst (@read_config Fake.service (Fake.inputs (lit "1")) (Fake.world Fake.empty)) =
    Return (lit "p", TopicConfig.mk (lit "events") false None None None).
Proof.
  split.
  - destruct (@skip_if_exists_any_other_spelling_is_false Fake.service
                (Fake.inputs (lit "TrUe")) (Fake.world Fake.empty)
                (lit "p") (lit "events") (lit "TrUe") [] [] [])
      as (b & -> & Hb & _); try reflexivity.
    replace b with true; [reflexivity|]. symmetry. apply Hb.
    exists (ch "T"), (ch "r"), (ch "U"), (ch "e"). split; [reflexivity|].
    rewrite !elem_of_cons. tauto.
  - destruct (@skip_if_exists_any_other_spelling_is_false Fake.service
                (Fake.inputs (lit "1")) (Fake.world Fake.empty)
                (lit "p") (lit "events") (lit "1") [] [] [])
      as (b & -> & _ & Hb & _); try reflexivity.
    rewrite Hb; [reflexivity|]. intros (? & ? & ? & ? & ? & _). discriminate.
Defined.

(** C9 as claimed fails: the spelling [yes] is not rejected, it is read as
    [false]. *)
Lemma skip_if_exists_yes_is_not_rejected :
  fst (@read_config Fake.service (Fake.inputs (lit "yes")) (Fake.world Fake.empty)) =
    Return (lit "p", TopicConfig.mk (lit "events") false None None None) /\
  ~ exists e,
      fst (@read_config Fake.service (Fake.inputs (lit "yes")) (Fake.world Fake.empty)) =
        Throw e.
Proof.
  split; [reflexivity|]. intros [e He]. vm_compute in He. discriminate.
Qed.

(** ** Labels *)

Lemma typeof_string v : typeof v = lit "string" <-> is_string v = true.
Proof. destruct v; simpl; split; (done || discriminate). Qed.

Lemma typeof_not_string v : typeof v <> lit "string" <-> is_string v = false.
Proof. rewrite typeof_string. by destruct (is_string v). Qed.

(** The loop stops at the first value that is not a string. *)
Lemma collect_labels_offender pre k v post labels :
  Forall (fun kv => is_string kv.2 = true) pre -> is_string v = false ->
  collect_labels (pre ++ (k, v) :: post) labels =
    Throw (ErrorObj (label_type_message k (typeof v))).
Proof.
  intros Hpre Hv. revert labels.
  induction Hpre as [|[k0 v0] pre Hs _ IH]; intros labels; simpl.
  - by destruct v.
  - destruct v0; try discriminate Hs. apply IH.
Qed.

Lemma first_offender (entries : list (jsstring * JSON)) :
  Exists (fun kv => is_string kv.2 = false) entries ->
  exists pre k v post, entries = pre ++ (k, v) :: post /\
    Forall (fun kv => is_string kv.2 = true) pre /\ is_string v = false.
Proof.
  induction entries as [|[k0 v0] entries IH]; intros Hex.
  - by apply Exists_nil in Hex.
  - destruct (is_string v0) eqn:Hv0.
    + apply Exists_cons in Hex as [Hex|Hex]; [simpl in Hex; congruence|].
      destruct (IH Hex) as (pre & k & v & post & -> & Hpre & Hv).
      exists ((k0, v0) :: pre), k, v, post. split; [done|]. split; [|done].
      by constructor.
    + exists [], k0, v0, entries. by repeat split.
Qed.

Lemma collect_labels_throws entries labels :
  (exists e, collect_labels entries labels = Throw e) <->
  Exists (fun kv => is_string kv.2 = false) entries.
Proof.
  split.
  - revert labels. induction entries as [|[k v] entries IH]; intros labels [e He].
    + discriminate.
    + destruct (is_string v) eqn:Hv.
      * apply Exists_cons_tl. destruct v; try discriminate Hv. simpl in He. eauto.
      * by apply Exists_cons_hd.
  - intros (pre & k & v & post & -> & Hpre & Hv)%first_offender.
    rewrite collect_labels_offender by done. eauto.
Qed.

(** When every value is a string and the names are distinct, the loop returns
    the entries as a map, except for the name [__proto__]. *)
Lemma collect_labels_lookup entries labels0 :
  Forall (fun kv => is_string kv.2 = true) entries -> NoDup entries.*1 ->
  exists labels, collect_labels entries labels0 = Return labels /\
    forall k s, labels !! k = Some s <->
      ((k, JString s) ∈ entries /\ k <> lit "__proto__") \/
      ((k ∉ entries.*1 \/ k = lit "__proto__") /\ labels0 !! k = Some s).
Proof.
  intros Hall. revert labels0.
  induction Hall as [|[k0 v0] entries Hs _ IH]; intros labels0 Hnd.
  - exists labels0. split; [done|]. intros k s. rewrite elem_of_nil.
    split; [intros ?; right; split; [left; apply not_elem_of_nil|done]|].
    by intros [[[] _]|[_ ?]].
  - destruct v0 as [| | |s0| |]; try discriminate Hs.
    apply NoDup_cons in Hnd as [Hk0 Hnd].
    destruct (IH (assign_label k0 s0 labels0) Hnd) as (labels & Hc & Hl).
    exists labels. split; [done|]. intros k s. rewrite Hl. clear Hl Hc IH.
    assert (assign_label k0 s0 labels0 !! k = Some s <->
            (k0 <> lit "__proto__" /\ k = k0 /\ s = s0) \/
            ((k0 = lit "__proto__" \/ k <> k0) /\ labels0 !! k = Some s)) as ->.
    { unfold assign_label. case_bool_decide as Hp; [naive_solver|].
      destruct (decide (k = k0)) as [->|Hne].
      - rewrite lookup_insert_eq. naive_solver.
      - rewrite lookup_insert_ne by done. naive_solver. }
    assert ((k, JString s) ∈ entries -> k ∈ entries.*1) as Hin.
    { intros Hin. apply list_elem_of_fmap. by exists (k, JString s). }
    assert ((k, JString s) = (k0, JString s0) <-> k = k0 /\ s = s0) as Heq by naive_solver.
    rewrite fmap_cons, !elem_of_cons, Heq. cbn [fst].
    destruct (decide (k = k0)) as [Hk|Hne], (decide (k = lit "__proto__")) as [Hp|Hp];
      naive_solver.
Qed.

(** *** The own properties of an object *)

Lemma insert_index_perm i e l : insert_index i e l ≡ₚ (i, e) :: l.
Proof.
  induction l as [|[j e'] l IH]; simpl; [done|].
  destruct (i <=? j); [done|]. rewrite IH. apply Permutation_swap.
Qed.

Lemma own_entries_perm props : own_entries props ≡ₚ props.
Proof.
  unfold own_entries. induction props as [|[k v] props IH]; simpl; [done|].
  destruct (array_index k) as [i|] eqn:Hi; simpl.
  - rewrite insert_index_perm. simpl. by rewrite IH.
  - rewrite <- Permutation_middle. by rewrite IH.
Qed.

(** *** The names in an object of the parser are distinct *)

Lemma define_prop_keys k v props k' :
  k' ∈ (define_prop k v props).*1 <-> k' = k \/ k' ∈ props.*1.
Proof.
  induction props as [|[k0 v0] props IH]; simpl.
  - rewrite elem_of_cons, elem_of_nil. tauto.
  - case_bool_decide; simpl; rewrite !elem_of_cons; [naive_solver|].
    rewrite IH. naive_solver.
Qed.

Lemma define_prop_NoDup k v props : NoDup props.*1 -> NoDup (define_prop k v props).*1.
Proof.
  induction props as [|[k0 v0] props IH]; simpl; intros Hnd.
  - apply NoDup_singleton.
  - apply NoDup_cons in Hnd as [Hk0 Hnd].
    case_bool_decide as Hk; simpl.
    + subst. by apply NoDup_cons.
    + apply NoDup_cons. split; [|by apply IH].
      rewrite define_prop_keys. naive_solver.
Qed.

Lemma complete_value_ok v fs t st :
  unique_keys v -> Forall frame_ok fs -> (forall v', t = Some v' -> unique_keys v') ->
  complete_value v fs t = Some st -> state_ok st.
Proof.
  intros Hv Hfs Ht Hc. unfold complete_value in Hc.
  destruct fs as [|[es|ps [k|]] fs']; simplify_eq; unfold state_ok; simpl.
  - split; [done|]. split; [|done]. by intros ? [= <-].
  - apply Forall_cons in Hfs as [_ Hfs]. split; [|done]. by constructor.
  - apply Forall_cons in Hfs as [Hps Hfs]. split; [|done].
    constructor; [|done]. by apply define_prop_NoDup.
Qed.

Lemma close_array_ok fs t st :
  Forall frame_ok fs -> (forall v', t = Some v' -> unique_keys v') ->
  close_array fs t = Some st -> state_ok st.
Proof.
  intros Hfs Ht Hc. unfold close_array in Hc.
  destruct fs as [|[es|ps k] fs']; simplify_eq.
  apply Forall_cons in Hfs as [_ Hfs].
  by apply (complete_value_ok (JArray (rev es)) fs' t).
Qed.

Lemma close_object_ok fs t st :
  Forall frame_ok fs -> (forall v', t = Some v' -> unique_keys v') ->
  close_object fs t = Some st -> state_ok st.
Proof.
  intros Hfs Ht Hc. unfold close_object in Hc.
  destruct fs as [|[es|ps [k|]] fs']; simplify_eq.
  apply Forall_cons in Hfs as [Hps Hfs].
  by apply (complete_value_ok (JObject ps) fs' t).
Qed.

Lemma after_value_ok fs t c st :
  Forall frame_ok fs -> (forall v', t = Some v' -> unique_keys v') ->
  after_value fs t c = Some st -> state_ok st.
Proof.
  intros Hfs Ht Ha. unfold after_value in Ha.
  repeat case_match; simplify_eq;
    try (by eauto using close_array_ok, close_object_ok);
    try (unfold state_ok; simpl; by repeat split).
Qed.

Lemma start_value_ok fs t c st :
  Forall frame_ok fs -> (forall v', t = Some v' -> unique_keys v') ->
  start_value fs t c = Some st -> state_ok st.
Proof.
  intros Hfs Ht Hs. unfold start_value in Hs.
  repeat case_match; simplify_eq; unfold state_ok; simpl;
    repeat split; try done; constructor; try done; simpl; constructor.
Qed.

Lemma step_ok st c st' : state_ok st -> step st c = Some st' -> state_ok st'.
Proof.
  destruct st as [fs t m]. intros (Hfs & Ht & Hm) Hstep.
  unfold step in Hstep. simpl in *.
  destruct m as [| | | | | |is_key acc [| |n v]|acc ns|expected v].
  - case_match; simplify_eq; [done|]. by eapply start_value_ok.
  - repeat case_match; simplify_eq; [done| |]; eauto using close_array_ok, start_value_ok.
  - unfold start_key in Hstep.
    repeat case_match; simplify_eq; [done| |done]; eauto using close_object_ok.
  - unfold start_key in Hstep. by repeat case_match; simplify_eq.
  - by repeat case_match; simplify_eq.
  - by eapply after_value_ok.
  - unfold end_string in Hstep. repeat case_match; simplify_eq; try done.
    + apply Forall_cons in Hfs as [Hps Hfs]. split; [by constructor|done].
    + by eapply (complete_value_ok (JString _)).
  - by repeat case_match; simplify_eq.
  - by repeat case_match; simplify_eq.
  - repeat case_match; simplify_eq; [done|].
    match goal with
    | Hc : complete_value _ _ _ = Some ?s |- _ =>
        apply (complete_value_ok (JNumber _)) in Hc as (? & ? & _); try done
    end.
    by eapply after_value_ok.
  - repeat case_match; simplify_eq; [|done]. by eapply complete_value_ok.
Qed.

Lemma run_text_ok text : forall st v,
  state_ok st -> run_text st text = Some v -> unique_keys v.
Proof.
  induction text as [|c text IH]; intros st v Hok Hrun; simpl in Hrun.
  - destruct Hok as (_ & Ht & _). unfold finish in Hrun.
    repeat case_match; simplify_eq; [by apply Ht|done].
  - destruct (step st c) as [st'|] eqn:Hstep; [|done].
    eapply IH; [|done]. by eapply step_ok.
Qed.

Lemma parse_text_unique_keys text props :
  parse_text text = Some (JObject props) -> NoDup props.*1.
Proof.
  intros Hp. apply (run_text_ok text initial (JObject props)); [|done].
  unfold state_ok, initial. simpl. by repeat split.
Qed.

(** *** The index names of the units of a string *)

Lemma lit_inj s1 s2 : lit s1 = lit s2 -> s1 = s2.
Proof.
  unfold lit. intros Heq.
  rewrite <- (string_of_list_ascii_of_string s1), <- (string_of_list_ascii_of_string s2).
  f_equal. revert Heq.
  generalize (list_ascii_of_string s1) (list_ascii_of_string s2).
  induction l as [|a l IH]; intros [|b l']; simpl; try done.
  intros [= Hab Hl]. f_equal; [|by apply IH].
  rewrite <- (ascii_N_embedding a), <- (ascii_N_embedding b). by rewrite Hab.
Qed.

Lemma to_uint_nonnil n : N.to_uint n <> Decimal.Nil.
Proof. destruct n; simpl; [discriminate|]. apply DecimalPos.Unsigned.to_uint_nonnil. Qed.

Lemma decimal_inj n m : decimal n = decimal m -> n = m.
Proof.
  unfold decimal. intros Heq%lit_inj.
  apply DecimalN.Unsigned.to_uint_inj.
  apply (f_equal NilZero.uint_of_string) in Heq.
  rewrite !NilZero.usu in Heq by apply to_uint_nonnil. congruence.
Qed.

Lemma decimal_not_proto n : decimal n <> lit "__proto__".
Proof.
  unfold decimal. intros Heq%lit_inj. revert Heq.
  unfold NilZero.string_of_uint. destruct (N.to_uint n); discriminate.
Qed.

Lemma index_keys_NoDup {A} (f : A -> JSON) (l : list A) :
  NoDup (imap (fun i x => (decimal (N.of_nat i), f x)) l).*1.
Proof.
  rewrite fmap_imap. apply NoDup_alt. intros i j k.
  rewrite !list_lookup_imap. intros Hi Hj.
  destruct (l !! i), (l !! j); simplify_eq/=.
  match goal with Hd : decimal _ = decimal _ |- _ => apply decimal_inj in Hd end. lia.
Qed.

(** *** parseLabels, case by case *)

Section ParseLabels.

Context `{Engine}.

Lemma parseLabels_not_json text :
  parse_text text = None ->
  parseLabels text =
    Throw (ErrorObj (lit "Failed to parse labels: " ++ json_syntax_error_message text)).
Proof. intros Hp. unfold parseLabels, parseLabels_try, JSON_parse. by rewrite Hp. Qed.

Lemma parseLabels_null text :
  parse_text text = Some JNull ->
  parseLabels text =
    Throw (ErrorObj (lit "Failed to parse labels: " ++ null_to_object_message)).
Proof. intros Hp. unfold parseLabels, parseLabels_try, JSON_parse. by rewrite Hp. Qed.

Lemma parseLabels_entries text v entries :
  parse_text text = Some v -> Object_entries v = Return entries ->
  parseLabels text =
    match collect_labels entries ∅ with
    | Return labels => Return labels
    | Throw e => Throw (ErrorObj (lit "Failed to parse labels: " ++ errorMessage e))
    end.
Proof.
  intros Hp He. unfold parseLabels, parseLabels_try, JSON_parse. by rewrite Hp, He.
Qed.

Lemma Object_entries_not_null v :
  v <> JNull -> exists entries, Object_entries v = Return entries.
Proof. destruct v; simpl; eauto. done. Qed.

Lemma parseLabels_throws_iff text :
  (exists e, parseLabels text = Throw e) <->
  parse_text text = None \/ parse_text text = Some JNull \/
  exists v entries, parse_text text = Some v /\ Object_entries v = Return entries /\
    Exists (fun kv => typeof kv.2 <> lit "string") entries.
Proof.
  destruct (parse_text text) as [v|] eqn:Hp.
  2:{ rewrite (parseLabels_not_json _ Hp). split; eauto. }
  assert (v = JNull \/ v <> JNull) as [->|Hv] by (destruct v; auto).
  { rewrite (parseLabels_null _ Hp). split; eauto. }
  destruct (Object_entries_not_null v Hv) as [entries He].
  rewrite (parseLabels_entries _ _ _ Hp He). split.
  - intros [e Hthrow]. right. right. exists v, entries. split; [done|]. split; [done|].
    assert (Exists (fun kv => is_string kv.2 = false) entries) as Hex.
    { apply (collect_labels_throws entries ∅).
      destruct (collect_labels entries ∅); [done|eauto]. }
    eapply Exists_impl; [done|]. intros kv. by rewrite typeof_not_string.
  - intros [?|[[= ?]|(v' & entries' & [= <-] & He' & Hex)]]; [done|done|].
    rewrite He in He'. injection He' as <-.
    assert (Exists (fun kv => is_string kv.2 = false) entries) as Hex'.
    { eapply Exists_impl; [done|]. intros kv. by rewrite typeof_not_string. }
    apply collect_labels_throws with (labels := ∅) in Hex' as [e ->]. eauto.
Qed.

Lemma parseLabels_offender text v pre k x post :
  parse_text text = Some v -> Object_entries v = Return (pre ++ (k, x) :: post) ->
  Forall (fun kv => typeof kv.2 = lit "string") pre -> typeof x <> lit "string" ->
  parseLabels text =
    Throw (ErrorObj (lit "Failed to parse labels: " ++ label_type_message k (typeof x))).
Proof.
  intros Hp He Hpre Hx. rewrite (parseLabels_entries _ _ _ Hp He).
  rewrite collect_labels_offender; [done| |by apply typeof_not_string].
  eapply Forall_impl; [done|]. intros kv. by rewrite typeof_string.
Qed.

Lemma parseLabels_flat_object text props :
  parse_text text = Some (JObject props) ->
  (forall k v, (k, v) ∈ props -> typeof v = lit "string") ->
  exists labels, parseLabels text = Return labels /\
    forall k s, labels !! k = Some s <-> (k, JString s) ∈ props /\ k <> lit "__proto__".
Proof.
  intros Hp Hall.
  pose proof (parse_text_unique_keys _ _ Hp) as Hnd.
  rewrite (parseLabels_entries _ _ (own_entries props) Hp) by done.
  destruct (collect_labels_lookup (own_entries props) ∅) as (labels & -> & Hl).
  - rewrite own_entries_perm. apply Forall_forall. intros [k v] Hin.
    apply typeof_string. by apply (Hall k).
  - by rewrite own_entries_perm.
  - exists labels. split; [done|]. intros k s. rewrite Hl, own_entries_perm.
    rewrite lookup_empty. naive_solver.
Qed.

Lemma parseLabels_string text s :
  parse_text text = Some (JString s) ->
  exists labels, parseLabels text = Return labels /\
    forall k v, labels !! k = Some v <->
      exists i c, s !! i = Some c /\ k = decimal (N.of_nat i) /\ v = [c].
Proof.
  intros Hp. rewrite (parseLabels_entries _ _ _ Hp eq_refl).
  destruct (collect_labels_lookup
              (imap (fun i c => (decimal (N.of_nat i), JString [c])) s) ∅)
    as (labels & -> & Hl).
  - apply Forall_forall. intros kv (i & c & -> & _)%elem_of_lookup_imap. done.
  - apply index_keys_NoDup.
  - exists labels. split; [done|]. intros k v. rewrite Hl, lookup_empty.
    rewrite elem_of_lookup_imap. split.
    + intros [[(i & c & [= -> ->] & Hi) _]|[_ [=]]]. eauto.
    + intros (i & c & Hi & -> & ->). left. split; [eauto|]. apply decimal_not_proto.
Qed.

(** C7, as the code has it. [parseLabels] fails exactly when (a) its input is
    not valid JSON, or the parsed document is [null], or (b) some value among
    the entries of the parsed document is not a string. In case (b) the
    message names the first such key and the [typeof] of its value. For a flat
    JSON object whose values are all strings (and that has no member named
    [__proto__]) it returns the members as a map from strings to strings. *)
Theorem parseLabels_fails_exactly_on_bad_json_null_or_non_string :
  (forall text,
     (exists e, parseLabels text = Throw e) <->
     parse_text text = None \/ parse_text text = Some JNull \/
     exists v entries, parse_text text = Some v /\ Object_entries v = Return entries /\
       Exists (fun kv => typeof kv.2 <> lit "string") entries) /\
  (forall text, parse_text text = None ->
     parseLabels text =
       Throw (ErrorObj (lit "Failed to parse labels: " ++ json_syntax_error_message text))) /\
  (forall text v pre k x post,
     parse_text text = Some v -> Object_entries v = Return (pre ++ (k, x) :: post) ->
     Forall (fun kv => typeof kv.2 = lit "string") pre -> typeof x <> lit "string" ->
     let message := lit "Failed to parse labels: " ++ label_type_message k (typeof x) in
     parseLabels text = Throw (ErrorObj message) /\
     includes (lit "Label " ++ dq ++ k ++ dq) message = true /\
     includes (lit "got " ++ typeof x) message = true) /\
  (forall text props,
     parse_text text = Some (JObject props) ->
     (forall k v, (k, v) ∈ props -> typeof v = lit "string") ->
     lit "__proto__" ∉ props.*1 ->
     exists labels, parseLabels text = Return labels /\
       forall k s, labels !! k = Some s <-> (k, JString s) ∈ props) /\
  parseLabels (quoted "{'a':'1','b':'2'}") =
    Return {[ lit "a" := lit "1"; lit "b" := lit "2" ]} /\
  parseLabels (quoted "{'a':1}") =
    Throw (ErrorObj (quoted "Failed to parse labels: Label 'a' must be a string, got number. All labels must be strings.")) /\
  parseLabels (lit "not json") =
    Throw (ErrorObj (lit "Failed to parse labels: " ++
                     json_syntax_error_message (lit "not json"))).
Proof.
  split; [exact parseLabels_throws_iff|]. split; [exact parseLabels_not_json|].
  split; [|split; [|by repeat split]].
  - intros text v pre k x post Hp He Hpre Hx message.
    split; [by eapply parseLabels_offender|]. split.
    + apply (includes_intro _ (lit "Failed to parse labels: ")
               (lit " must be a string, got " ++ typeof x ++ lit ". " ++
                lit "All labels must be strings.")).
      unfold message, label_type_message. by rewrite <- !app_assoc.
    + apply (includes_intro _
               (lit "Failed to parse labels: " ++ lit "Label " ++ dq ++ k ++ dq ++
                lit " must be a string, ")
               (lit ". " ++ lit "All labels must be strings.")).
      unfold message, label_type_message. by rewrite <- !app_assoc.
  - intros text props Hp Hall Hproto.
    destruct (parseLabels_flat_object text props Hp Hall) as (labels & -> & Hl).
    exists labels. split; [done|]. intros k s. rewrite Hl. split; [by intros [? _]|].
    intros Hin. split; [done|]. intros ->. apply Hproto.
    apply list_elem_of_fmap. by exists (lit "__proto__", JString s).
Qed.

(** C10. A document that is valid JSON but not an object is not always
    rejected. For a number or a boolean [parseLabels] returns the empty map;
    for a string it returns the map from the index of each unit, in decimal,
    to that unit; [null] is rejected, with the engine's message inside the
    parse-failure message, and among the documents that are neither arrays
    nor objects it is the only one rejected. So ['5'] and ['true'] give the
    empty map and ['"ab"'] gives [{"0": "a", "1": "b"}]. *)
Theorem parseLabels_accepts_documents_that_are_not_objects :
  (forall text lexeme, parse_text text = Some (JNumber lexeme) -> parseLabels text = Return ∅) /\
  (forall text b, parse_text text = Some (JBool b) -> parseLabels text = Return ∅) /\
  (forall text s, parse_text text = Some (JString s) ->
     exists labels, parseLabels text = Return labels /\
       forall k v, labels !! k = Some v <->
         exists i c, s !! i = Some c /\ k = decimal (N.of_nat i) /\ v = [c]) /\
  (forall text, parse_text text = Some JNull ->
     parseLabels text =
       Throw (ErrorObj (lit "Failed to parse labels: " ++ null_to_object_message))) /\
  (forall text v, parse_text text = Some v ->
     (forall elems, v <> JArray elems) -> (forall props, v <> JObject props) ->
     (exists e, parseLabels text = Throw e) <-> v = JNull) /\
  parseLabels (lit "5") = Return ∅ /\
  parseLabels (lit "true") = Return ∅ /\
  parseLabels (quoted "'ab'") = Return {[ lit "0" := lit "a"; lit "1" := lit "b" ]} /\
  parseLabels (lit "null") =
    Throw (ErrorObj (lit "Failed to parse labels: " ++ null_to_object_message)).
Proof.
  assert (forall text lexeme,
    parse_text text = Some (JNumber lexeme) -> parseLabels text = Return ∅) as Hnum.
  { intros text lexeme Hp. by rewrite (parseLabels_entries _ _ [] Hp). }
  assert (forall text b,
    parse_text text = Some (JBool b) -> parseLabels text = Return ∅) as Hbool.
  { intros text b Hp. by rewrite (parseLabels_entries _ _ [] Hp). }
  split; [done|]. split; [done|]. split; [exact parseLabels_string|].
  split; [exact parseLabels_null|]. split; [|by repeat split].
  intros text v Hp Harr Hobj. destruct v as [|b|lexeme|s|elems|props].
  - rewrite (parseLabels_null _ Hp). split; eauto.
  - rewrite (Hbool _ _ Hp). split; [by intros [? ?]|done].
  - rewrite (Hnum _ _ Hp). split; [by intros [? ?]|done].
  - destruct (parseLabels_string _ _ Hp) as (labels & -> & _).
    split; [by intros [? ?]|done].
  - by destruct (Harr elems).
  - by destruct (Hobj props).
Qed.

End ParseLabels.

Lemma parseLabels_fails_exactly_on_bad_json_null_or_non_string_witness :
  @parseLabels Fake.engine (quoted "{'env':'prod','tier':3}") =
    Throw (ErrorObj (quoted "Failed to parse labels: Label 'tier' must be a string, got number. All labels must be strings.")) /\
  (exists labels,
     @parseLabels Fake.engine (quoted "{'env':'prod'}") = Return labels /\
     labels !! lit "env" = Some (lit "prod")) /\
  @parseLabels Fake.engine (lit "{") =
    Throw (ErrorObj (lit "Failed to parse labels: Unexpected token in JSON: {")).
Proof.
  destruct (@parseLabels_fails_exactly_on_bad_json_null_or_non_string Fake.engine)
    as (_ & Hjson & Hoffender & Hflat & _).
  split; [|split].
  - destruct (Hoffender (quoted "{'env':'prod','tier':3}")
                (JObject [(lit "env", JString (lit "prod")); (lit "tier", JNumber (lit "3"))])
                [(lit "env", JString (lit "prod"))] (lit "tier") (JNumber (lit "3")) [])
      as [-> _].
    + vm_compute. reflexivity.
    + vm_compute. reflexivity.
    + repeat constructor.
    + discriminate.
    + reflexivity.
  - destruct (Hflat (quoted "{'env':'prod'}") [(lit "env", JString (lit "prod"))])
      as (labels & Hlabels & Hlookup).
    + vm_compute. reflexivity.
    + intros k v [= -> ->]%list_elem_of_singleton. reflexivity.
    + intros [= ?]%list_elem_of_singleton.
    + exists labels. split; [exact Hlabels|]. apply Hlookup. apply list_elem_of_singleton.
      reflexivity.
  - apply (Hjson (lit "{")). vm_compute. reflexivity.
Defined.

(** C7 as claimed fails: the text [null] is valid JSON and has no value that
    is not a string (the document has no entries at all), and [parseLabels]
    fails on it. *)
Lemma parseLabels_rejects_null :
  parse_text (lit "null") = Some JNull /\
  @parseLabels Fake.engine (lit "null") =
    Throw (ErrorObj (lit "Failed to parse labels: Cannot convert undefined or null to object")) /\
  ~ exists entries k x,
      @Object_entries Fake.engine JNull = Return entries /\ (k, x) ∈ entries /\
      typeof x <> lit "string".
Proof.
  split; [reflexivity|]. split; [reflexivity|].
  intros (entries & k & x & He & _). discriminate.
Qed.

Lemma parseLabels_accepts_documents_that_are_not_objects_witness :
  @parseLabels Fake.engine (lit "-12.5e3") = Return ∅ /\
  @parseLabels Fake.engine (lit "false") = Return ∅ /\
  (exists labels,
     @parseLabels Fake.engine (quoted "'xyz'") = Return labels /\
     labels !! lit "2" = Some (lit "z")) /\
  @parseLabels Fake.engine (lit " null ") =
    Throw (ErrorObj (lit "Failed to parse labels: Cannot convert undefined or null to object")).
Proof.
  destruct (@parseLabels_accepts_documents_that_are_not_objects Fake.engine)
    as (Hnum & Hbool & Hstring & Hnull & _).
  split; [|split; [|split]].
  - apply (Hnum _ (lit "-12.5e3")). vm_compute. reflexivity.
  - apply (Hbool _ false). vm_compute. reflexivity.
  - destruct (Hstring (quoted "'xyz'") (lit "xyz")) as (labels & Hlabels & Hlookup).
    + vm_compute. reflexivity.
    + exists labels. split; [exact Hlabels|]. apply Hlookup.
      exists 2%nat, (ch "z"). split; [reflexivity|]. split; reflexivity.
  - apply (Hnull (lit " null ")). vm_compute. reflexivity.
Defined.

(** * Further properties *)

(** ** The paths of createTopic *)

Section Paths.

Context {St : Type} `{Engine} `{PubSub St}.

Lemma checkTopicExists_summary n (w : World St) :
  exists l,
    checkTopicExists n w =
      (Return (check_summary n (service w)).1.1,
       mkWorld (check_summary n (service w)).1.2
         (calls w ++ (check_summary n (service w)).2) l).
Proof.
  unfold check_summary.
  destruct (pubsub_topic n) as [t|e] eqn:Ht.
  - destruct (topic_exists t (service w)) as [[b|e] s'] eqn:Hq.
    + rewrite (checkTopicExists_answer _ _ _ _ _ Ht Hq). eauto.
    + rewrite (checkTopicExists_query_fails _ _ _ _ _ Ht Hq). eauto.
  - rewrite (checkTopicExists_no_handle _ _ _ Ht). simpl. rewrite app_nil_r. eauto.
Qed.

Lemma set_metadata_summary config tp (w : World St) :
  exists l,
    set_metadata config tp w =
      match metadata_of config with
      | Throw e => (Throw e, mkWorld (service w) (calls w) l)
      | Return md =>
          (match (topic_setMetadata tp md (service w)).1 with
           | Return _ => Return tt
           | Throw e => Throw e
           end,
           mkWorld (topic_setMetadata tp md (service w)).2
             (calls w ++ [SetMetadataCall tp md]) l)
      end.
Proof.
  destruct w as [s cs l0].
  unfold metadata_of, parse_optional.
  unfold set_metadata, action_bind, lift, core_info, emit, request, action_ret.
  destruct (truthy (TopicConfig.labels config)), (TopicConfig.labels config) as [text|];
    try destruct (parseLabels text);
    destruct (truthy (TopicConfig.messageRetentionDuration config)),
             (TopicConfig.messageRetentionDuration config) as [text'|];
    try destruct (parseDuration text');
    destruct (truthy (TopicConfig.kmsKeyName config)) eqn:Hk,
             (TopicConfig.kmsKeyName config) as [key|];
    try discriminate Hk; cbn [service calls log];
    try (match goal with
         | |- context [topic_setMetadata ?t ?m ?s] =>
             destruct (topic_setMetadata t m s) as [[[]|?] ?]
         end);
    cbn [fst snd service calls log]; eauto.
Qed.

(** Every run of [createTopic] follows its summary. *)
Lemma createTopic_follows_summary config (w : World St) :
  exists l,
    createTopic config w =
      (Return (createTopic_summary config (service w)).1.1,
       mkWorld (createTopic_summary config (service w)).1.2
         (calls w ++ (createTopic_summary config (service w)).2) l).
Proof.
  unfold createTopic_summary.
  destruct (validateTopicName (TopicConfig.topicName config)) as [[]|e] eqn:Hv.
  2:{ unfold createTopic, createTopic_try. rewrite try_catch_bind.
      unfold lift at 1. rewrite Hv, createTopic_catch. simpl. rewrite app_nil_r. eauto. }
  destruct (checkTopicExists_summary (TopicConfig.topicName config)
              (mkWorld (service w) (calls w)
                 (log w ++ [Info (lit "Topic name: " ++ TopicConfig.topicName config)])))
    as [l0 Hcheck].
  rewrite (createTopic_after_check config w _ _ Hv Hcheck). clear Hcheck.
  cbn [service calls].
  destruct (check_summary (TopicConfig.topicName config) (service w)) as [[check s1] cs].
  cbn [fst snd].
  assert (exists l,
    try_catch
      (core_info (lit "Creating new topic...");;;
       let* topic :=
         request (CreateTopicCall (TopicConfig.topicName config))
           (pubsub_createTopic (TopicConfig.topicName config)) in
       core_info (check_mark ++ lit " Topic created");;;
       (if wants_metadata config then set_metadata config topic else action_ret tt);;;
       core_info (check_mark ++ lit " Topic created successfully");;;
       core_info (lit "Topic name: " ++ name topic);;;
       action_ret (TopicResult.mk true (Some (name topic)) (Some true) None))
      (fun error =>
         core_error (lit "Failed to create topic: " ++ errorMessage error);;;
         action_ret (TopicResult.mk false None None (Some (errorMessage error))))
      (mkWorld s1 (calls w ++ cs) l0) =
    (let '(r, s', cs') :=
       match pubsub_createTopic (TopicConfig.topicName config) s1 with
       | (Throw e, s2) => (failure e, s2, cs ++ [CreateTopicCall (TopicConfig.topicName config)])
       | (Return tp, s2) =>
           if wants_metadata config then
             match metadata_of config with
             | Throw e => (failure e, s2, cs ++ [CreateTopicCall (TopicConfig.topicName config)])
             | Return md =>
                 match topic_setMetadata tp md s2 with
                 | (Throw e, s3) =>
                     (failure e, s3,
                      cs ++ [CreateTopicCall (TopicConfig.topicName config);
                             SetMetadataCall tp md])
                 | (Return _, s3) =>
                     (created_result tp, s3,
                      cs ++ [CreateTopicCall (TopicConfig.topicName config);
                             SetMetadataCall tp md])
                 end
             end
           else (created_result tp, s2, cs ++ [CreateTopicCall (TopicConfig.topicName config)])
       end in
     (Return r, mkWorld s' (calls w ++ cs') l))) as Hcreate.
  { rewrite try_catch_info, try_catch_bind. unfold request at 1. cbn [service calls log].
    destruct (pubsub_createTopic (TopicConfig.topicName config) s1) as [[tp|e] s2].
    2:{ rewrite createTopic_catch. cbn [service calls log]. rewrite <- app_assoc. eauto. }
    rewrite try_catch_info. destruct (wants_metadata config).
    - rewrite try_catch_bind.
      match goal with
      | |- context [set_metadata config tp ?w0] =>
          destruct (set_metadata_summary config tp w0) as [l1 ->]
      end.
      destruct (metadata_of config) as [md|e].
      + cbn [service calls log].
        destruct (topic_setMetadata tp md s2) as [[[]|e] s3]; cbn [fst snd].
        * rewrite !try_catch_info, try_catch_ret. cbn [service calls log].
          rewrite <- !app_assoc. eauto.
        * rewrite createTopic_catch. cbn [service calls log]. rewrite <- !app_assoc. eauto.
      + rewrite createTopic_catch. cbn [service calls log]. rewrite <- !app_assoc. eauto.
    - rewrite try_catch_bind. unfold action_ret at 1.
      rewrite !try_catch_info, try_catch_ret. cbn [service calls log].
      rewrite <- !app_assoc. eauto. }
  destruct check as [[|] [existing|]]; cbn [exists_ topic].
  - destruct (TopicConfig.skipIfExists config).
    + cbn zeta. rewrite !try_catch_info, try_catch_ret. cbn [service calls log]. eauto.
    + rewrite try_catch_throw, createTopic_catch. cbn [service calls log]. eauto.
  - destruct Hcreate as [l ->]. exists l.
    by destruct (pubsub_createTopic _ _) as [[tp|e] s2]; repeat case_match.
  - destruct Hcreate as [l ->]. exists l.
    by destruct (pubsub_createTopic _ _) as [[tp|e] s2]; repeat case_match.
  - destruct Hcreate as [l ->]. exists l.
    by destruct (pubsub_createTopic _ _) as [[tp|e] s2]; repeat case_match.
Qed.

End Paths.

(** ** What actions log and return *)

Section Logs.

Context {St : Type}.

Lemma logs_only_ret {A} P (a : A) : logs_only P (@action_ret St A a).
Proof. intros w. exists []. by rewrite app_nil_r. Qed.

Lemma logs_only_throw {A} P e : logs_only P (@throw St A e).
Proof. intros w. exists []. by rewrite app_nil_r. Qed.

Lemma logs_only_lift {A} P (r : result A) : logs_only P (@lift St A r).
Proof. intros w. exists []. by rewrite app_nil_r. Qed.

Lemma logs_only_emit (P : Event -> Prop) e : P e -> logs_only P (@emit St e).
Proof. intros He w. exists [e]. split; [done|]. by constructor. Qed.

Lemma logs_only_request {A} P c (f : St -> result A * St) : logs_only P (request c f).
Proof.
  intros w. exists []. unfold request. destruct (f (service w)). simpl.
  by rewrite app_nil_r.
Qed.

Lemma logs_only_bind {A B} P (c : Action St A) (k : A -> Action St B) :
  logs_only P c -> (forall a, logs_only P (k a)) -> logs_only P (action_bind c k).
Proof.
  intros Hc Hk w. unfold action_bind. destruct (Hc w) as (l1 & Hl1 & HP1).
  destruct (c w) as [[a|e] w1]; simpl in *.
  - destruct (Hk a w1) as (l2 & Hl2 & HP2). exists (l1 ++ l2).
    rewrite Hl2, Hl1, app_assoc. split; [done|]. by apply Forall_app.
  - eauto.
Qed.

Lemma logs_only_try_catch {A} P (body : Action St A) handler :
  logs_only P body -> (forall e, logs_only P (handler e)) ->
  logs_only P (try_catch body handler).
Proof.
  intros Hb Hh w. unfold try_catch. destruct (Hb w) as (l1 & Hl1 & HP1).
  destruct (body w) as [[a|e] w1]; simpl in *.
  - eauto.
  - destruct (Hh e w1) as (l2 & Hl2 & HP2). exists (l1 ++ l2).
    rewrite Hl2, Hl1, app_assoc. split; [done|]. by apply Forall_app.
Qed.

Lemma logs_only_weaken {A} (P Q : Event -> Prop) (a : Action St A) :
  (forall e, P e -> Q e) -> logs_only P a -> logs_only Q a.
Proof.
  intros HPQ Ha w. destruct (Ha w) as (l & Hl & HP). exists l. split; [done|].
  by eapply Forall_impl.
Qed.

Lemma returns_only_ret {A} (Q : A -> Prop) (a : A) : Q a -> returns_only Q (@action_ret St A a).
Proof. by intros Ha w r w' [= <- _]. Qed.

Lemma returns_only_throw {A} (Q : A -> Prop) e : returns_only Q (@throw St A e).
Proof. by intros w r w' [=]. Qed.

Lemma returns_only_bind {A B} (Q : B -> Prop) (c : Action St A) (k : A -> Action St B) :
  (forall a, returns_only Q (k a)) -> returns_only Q (action_bind c k).
Proof.
  intros Hk w r w'. unfold action_bind. destruct (c w) as [[a|e] w1]; [|done].
  apply Hk.
Qed.

End Logs.

Ltac logs_step :=
  first
    [ apply logs_only_ret | apply logs_only_throw | apply logs_only_lift
    | apply logs_only_emit; exact I
    | apply logs_only_request
    | apply logs_only_bind; [|intros ?]
    | apply logs_only_try_catch; [|intros ?]
    | match goal with
      | |- logs_only _ (match ?x with _ => _ end) => destruct x
      end ].

Ltac returns_step :=
  first
    [ apply returns_only_ret | apply returns_only_throw
    | apply returns_only_bind; intros ?
    | match goal with
      | |- returns_only _ (match ?x with _ => _ end) => destruct x
      end ].

Section Results.

Context {St : Type} `{Engine} `{PubSub St}.

Lemma logs_only_checkTopicExists n : logs_only progress_event (checkTopicExists n).
Proof. unfold checkTopicExists, core_warning. repeat logs_step. Qed.

Lemma logs_only_set_metadata config t : logs_only progress_event (set_metadata config t).
Proof. unfold set_metadata, core_info. repeat logs_step. Qed.

Lemma logs_only_createTopic_try config : logs_only progress_event (createTopic_try config).
Proof.
  unfold createTopic_try, core_info.
  repeat first [apply logs_only_checkTopicExists | apply logs_only_set_metadata | logs_step].
Qed.

Lemma returns_only_createTopic_try config :
  returns_only
    (fun r => TopicResult.success r = true /\ TopicResult.error r = None /\
              is_Some (TopicResult.topicName r) /\ is_Some (TopicResult.created r))
    (createTopic_try config).
Proof. unfold createTopic_try. repeat returns_step; simpl; eauto. Qed.

(** X1. [createTopic] never throws: whatever the configuration and whatever
    the client does, it returns a result, and the result is either a success
    with a topic name and the [created] flag and no error, or a failure with
    an error message and neither name nor flag. *)
Theorem createTopic_always_returns_a_well_formed_result (config : TopicConfig.t)
    (w : World St) :
  exists r w', createTopic config w = (Return r, w') /\ well_formed_result r.
Proof.
  unfold createTopic, try_catch.
  destruct (createTopic_try config w) as [[r|e] w'] eqn:Htry.
  - exists r, w'. split; [done|]. left.
    by apply (returns_only_createTopic_try config w r w').
  - eexists _, _. split; [reflexivity|]. right. simpl. eauto.
Qed.

(** X2. The log of a run of [createTopic] tells its outcome. A failure ends
    with one error line, "Failed to create topic: " and the error of the
    result, after information and warning lines only; a success logs
    information and warning lines only. The outputs and the failure of the
    step are never touched by [createTopic] itself. *)
Theorem createTopic_logs_its_failure (config : TopicConfig.t) (w : World St) :
  exists r w' l,
    createTopic config w = (Return r, w') /\ Forall progress_event l /\
    ((TopicResult.success r = true /\ log w' = log w ++ l) \/
     (exists message,
        TopicResult.success r = false /\ TopicResult.error r = Some message /\
        log w' = log w ++ l ++ [Error (lit "Failed to create topic: " ++ message)])).
Proof.
  unfold createTopic, try_catch.
  destruct (logs_only_createTopic_try config w) as (l & Hl & HP).
  destruct (createTopic_try config w) as [[r|e] w'] eqn:Htry; simpl in Hl.
  - exists r, w', l. split; [done|]. split; [done|]. left. split; [|done].
    by apply (returns_only_createTopic_try config w r w').
  - eexists _, _, l. split; [reflexivity|]. split; [done|]. right.
    exists (errorMessage e). simpl. rewrite Hl. by rewrite app_assoc.
Qed.

End Results.

(** ** createTopic, path by path *)

Section Scenarios.

Context {St : Type} `{Engine} `{PubSub St}.

Lemma createTopic_run config (w : World St) r s' cs :
  createTopic_summary config (service w) = (r, s', cs) ->
  fst (createTopic config w) = Return r /\
  service (snd (createTopic config w)) = s' /\
  calls (snd (createTopic config w)) = calls w ++ cs.
Proof.
  intros Hs. destruct (createTopic_follows_summary config w) as [l ->].
  by rewrite Hs.
Qed.

(** The summary when the name is valid and the topic is not found: the query
    answered false, or it failed. *)
Lemma createTopic_summary_not_found config s t q s1 :
  validateTopicName (TopicConfig.topicName config) = Return tt ->
  pubsub_topic (TopicConfig.topicName config) = Return t ->
  topic_exists t s = (q, s1) -> q <> Return true ->
  createTopic_summary config s =
    match pubsub_createTopic (TopicConfig.topicName config) s1 with
    | (Throw e, s2) =>
        (failure e, s2, [ExistsCall t; CreateTopicCall (TopicConfig.topicName config)])
    | (Return tp, s2) =>
        if wants_metadata config then
          match metadata_of config with
          | Throw e =>
              (failure e, s2, [ExistsCall t; CreateTopicCall (TopicConfig.topicName config)])
          | Return md =>
              match topic_setMetadata tp md s2 with
              | (Throw e, s3) =>
                  (failure e, s3,
                   [ExistsCall t; CreateTopicCall (TopicConfig.topicName config);
                    SetMetadataCall tp md])
              | (Return _, s3) =>
                  (created_result tp, s3,
                   [ExistsCall t; CreateTopicCall (TopicConfig.topicName config);
                    SetMetadataCall tp md])
              end
          end
        else
          (created_result tp, s2, [ExistsCall t; CreateTopicCall (TopicConfig.topicName config)])
    end.
Proof.
  intros Hv Ht Hq Hnot. unfold createTopic_summary, check_summary.
  rewrite Hv, Ht, Hq. destruct q as [[|]|e]; [done| |]; cbn [exists_ topic];
    by destruct (pubsub_createTopic _ _) as [[tp|e'] s2]; repeat case_match.
Qed.

Lemma metadata_of_throws_wanted config e :
  metadata_of config = Throw e -> wants_metadata config = true.
Proof.
  unfold metadata_of, parse_optional, wants_metadata.
  destruct (truthy (TopicConfig.labels config)); [done|].
  destruct (truthy (TopicConfig.messageRetentionDuration config));
    [by rewrite orb_true_r|].
  by repeat case_match.
Qed.

(** X3. A name that is not a valid topic name stops [createTopic] before any
    request: the result is a failure with the invalid-name message, the
    service is untouched and no request is recorded, whatever else the
    configuration holds and whatever the service would have answered. *)
Theorem createTopic_rejects_invalid_name_before_any_request (config : TopicConfig.t)
    (w : World St) :
  ~ Spec.valid_topic_name (TopicConfig.topicName config) ->
  let message := invalid_topic_name_message (TopicConfig.topicName config) in
  createTopic config w =
    (Return (TopicResult.mk false None None (Some message)),
     mkWorld (service w) (calls w)
       (log w ++ [Error (lit "Failed to create topic: " ++ message)])).
Proof.
  intros Hn message.
  assert (validateTopicName (TopicConfig.topicName config) = Throw (ErrorObj message)) as Hv.
  { unfold validateTopicName.
    destruct (test_anchored topicPattern (TopicConfig.topicName config)) eqn:E; [|done].
    by apply valid_topic_name_test in E. }
  unfold createTopic, createTopic_try. rewrite try_catch_bind.
  unfold lift at 1. by rewrite Hv, createTopic_catch.
Qed.

(** X4. When the topic is not found (the query answered false, or the query
    itself failed) and the creation request fails, [createTopic] returns a
    failure with the message of that failure. The requests are the query and
    the creation; no metadata call is made. This does not depend on
    [skipIfExists]: when the query fails, a topic that does exist is not
    skipped. *)
Theorem createTopic_reports_creation_failure (config : TopicConfig.t) (w : World St)
    (t : Topic) (q : result bool) (e : Thrown) (s1 s2 : St) :
  validateTopicName (TopicConfig.topicName config) = Return tt ->
  pubsub_topic (TopicConfig.topicName config) = Return t ->
  topic_exists t (service w) = (q, s1) -> q <> Return true ->
  pubsub_createTopic (TopicConfig.topicName config) s1 = (Throw e, s2) ->
  fst (createTopic config w) =
    Return (TopicResult.mk false None None (Some (errorMessage e))) /\
  service (snd (createTopic config w)) = s2 /\
  calls (snd (createTopic config w)) =
    calls w ++ [ExistsCall t; CreateTopicCall (TopicConfig.topicName config)].
Proof.
  intros Hv Ht Hq Hnot Hc. apply createTopic_run.
  rewrite (createTopic_summary_not_found _ _ _ _ _ Hv Ht Hq Hnot). by rewrite Hc.
Qed.

(** X5. When the topic is not found, the creation succeeds and none of
    [labels], [kmsKeyName], [messageRetentionDuration] is given (a field that
    is the empty string counts as not given), [createTopic] returns
    [{success: true, created: true}] with the name of the created topic, and
    the requests are the query and the creation: no metadata call is made. *)
Theorem createTopic_creates_without_metadata (config : TopicConfig.t) (w : World St)
    (t tp : Topic) (q : result bool) (s1 s2 : St) :
  validateTopicName (TopicConfig.topicName config) = Return tt ->
  pubsub_topic (TopicConfig.topicName config) = Return t ->
  topic_exists t (service w) = (q, s1) -> q <> Return true ->
  pubsub_createTopic (TopicConfig.topicName config) s1 = (Return tp, s2) ->
  truthy (TopicConfig.labels config) = false ->
  truthy (TopicConfig.kmsKeyName config) = false ->
  truthy (TopicConfig.messageRetentionDuration config) = false ->
  fst (createTopic config w) =
    Return (TopicResult.mk true (Some (name tp)) (Some true) None) /\
  service (snd (createTopic config w)) = s2 /\
  calls (snd (createTopic config w)) =
    calls w ++ [ExistsCall t; CreateTopicCall (TopicConfig.topicName config)].
Proof.
  intros Hv Ht Hq Hnot Hc Hl Hk Hr. apply createTopic_run.
  rewrite (createTopic_summary_not_found _ _ _ _ _ Hv Ht Hq Hnot), Hc.
  unfold wants_metadata. by rewrite Hl, Hk, Hr.
Qed.

(** X6. When the topic is not found, the creation succeeds, some metadata is
    given and parses, and the update succeeds, [createTopic] returns
    [{success: true, created: true}] with the name of the created topic. The
    requests are the query, the creation and exactly one metadata update, sent
    on the handle the creation returned and carrying all the parsed fields at
    once. *)
Theorem createTopic_applies_metadata_in_one_call (config : TopicConfig.t) (w : World St)
    (t tp : Topic) (q : result bool) (md : Metadata.t) (s1 s2 s3 : St) :
  validateTopicName (TopicConfig.topicName config) = Return tt ->
  pubsub_topic (TopicConfig.topicName config) = Return t ->
  topic_exists t (service w) = (q, s1) -> q <> Return true ->
  pubsub_createTopic (TopicConfig.topicName config) s1 = (Return tp, s2) ->
  truthy (TopicConfig.labels config) = true \/
    truthy (TopicConfig.kmsKeyName config) = true \/
    truthy (TopicConfig.messageRetentionDuration config) = true ->
  metadata_of config = Return md ->
  topic_setMetadata tp md s2 = (Return tt, s3) ->
  fst (createTopic config w) =
    Return (TopicResult.mk true (Some (name tp)) (Some true) None) /\
  service (snd (createTopic config w)) = s3 /\
  calls (snd (createTopic config w)) =
    calls w ++ [ExistsCall t; CreateTopicCall (TopicConfig.topicName config);
                SetMetadataCall tp md].
Proof.
  intros Hv Ht Hq Hnot Hc Hwants Hm Hs. apply createTopic_run.
  assert (wants_metadata config = true) as Hw.
  { unfold wants_metadata. destruct Hwants as [-> | [-> | ->]]; by rewrite ?orb_true_r. }
  rewrite (createTopic_summary_not_found _ _ _ _ _ Hv Ht Hq Hnot), Hc, Hw, Hm. by rewrite Hs.
Qed.

(** X7. When the topic is not found and the creation succeeds, but the labels
    or the retention duration do not parse, [createTopic] returns a failure
    with the parse error. The topic has been created by then: the requests are
    the query and the creation, the service is in the state the creation left,
    and no metadata update is sent. *)
Theorem createTopic_parse_failure_after_creation (config : TopicConfig.t) (w : World St)
    (t tp : Topic) (q : result bool) (e : Thrown) (s1 s2 : St) :
  validateTopicName (TopicConfig.topicName config) = Return tt ->
  pubsub_topic (TopicConfig.topicName config) = Return t ->
  topic_exists t (service w) = (q, s1) -> q <> Return true ->
  pubsub_createTopic (TopicConfig.topicName config) s1 = (Return tp, s2) ->
  metadata_of config = Throw e ->
  fst (createTopic config w) =
    Return (TopicResult.mk false None None (Some (errorMessage e))) /\
  service (snd (createTopic config w)) = s2 /\
  calls (snd (createTopic config w)) =
    calls w ++ [ExistsCall t; CreateTopicCall (TopicConfig.topicName config)].
Proof.
  intros Hv Ht Hq Hnot Hc Hm. apply createTopic_run.
  rewrite (createTopic_summary_not_found _ _ _ _ _ Hv Ht Hq Hnot), Hc.
  by rewrite (metadata_of_throws_wanted _ _ Hm), Hm.
Qed.

(** X8. [kmsKeyName] is passed through as it is: for every non-empty key,
    whatever its form, a configuration with that key and no labels and no
    retention leads to a metadata update that carries the key unchanged and
    nothing else. *)
Theorem createTopic_passes_kms_key_verbatim (config : TopicConfig.t) (w : World St)
    (t tp : Topic) (q : result bool) (key : jsstring) (s1 s2 : St) :
  validateTopicName (TopicConfig.topicName config) = Return tt ->
  pubsub_topic (TopicConfig.topicName config) = Return t ->
  topic_exists t (service w) = (q, s1) -> q <> Return true ->
  pubsub_createTopic (TopicConfig.topicName config) s1 = (Return tp, s2) ->
  truthy (TopicConfig.labels config) = false ->
  truthy (TopicConfig.messageRetentionDuration config) = false ->
  TopicConfig.kmsKeyName config = Some key -> key <> [] ->
  calls (snd (createTopic config w)) =
    calls w ++ [ExistsCall t; CreateTopicCall (TopicConfig.topicName config);
                SetMetadataCall tp (Metadata.mk None (Some key) None)].
Proof.
  intros Hv Ht Hq Hnot Hc Hl Hr Hk Hkey.
  assert (truthy (TopicConfig.kmsKeyName config) = true) as Htk.
  { rewrite Hk. by destruct key. }
  assert (metadata_of config = Return (Metadata.mk None (Some key) None)) as Hm.
  { unfold metadata_of, parse_optional. by rewrite Hl, Hr, Htk, Hk. }
  assert (wants_metadata config = true) as Hw.
  { unfold wants_metadata. by rewrite Htk, orb_true_r. }
  destruct (topic_setMetadata tp (Metadata.mk None (Some key) None) s2) as [r s3] eqn:Hs.
  destruct r as [[]|e]; eapply (createTopic_run config w);
    by rewrite (createTopic_summary_not_found _ _ _ _ _ Hv Ht Hq Hnot), Hc, Hw, Hm, Hs.
Qed.

End Scenarios.

(** ** The requests of createTopic *)

Section Requests.

Context {St : Type} `{Engine} `{PubSub St}.

Lemma check_summary_shape n (s : St) :
  ((check_summary n s).2 = [] /\ exists_ (check_summary n s).1.1 = false /\
   topic (check_summary n s).1.1 = None) \/
  exists t, pubsub_topic n = Return t /\ (check_summary n s).2 = [ExistsCall t] /\
    ((exists_ (check_summary n s).1.1 = true /\ topic (check_summary n s).1.1 = Some t) \/
     (exists_ (check_summary n s).1.1 = false /\ topic (check_summary n s).1.1 = None)).
Proof.
  unfold check_summary. destruct (pubsub_topic n) as [t|e]; [|by left].
  right. exists t. split; [done|].
  destruct (topic_exists t s) as [[[|]|e] s']; simpl; eauto.
Qed.

(** X9. [createTopic] makes at most three requests, in this order: at most
    one existence query, then at most one creation, of the configured name,
    then at most one metadata update; a metadata update is only sent after a
    creation. Nothing is retried and nothing is deleted. *)
Theorem createTopic_requests_are_ordered (config : TopicConfig.t) (w : World St) :
  exists es cr ms,
    calls (snd (createTopic config w)) = calls w ++ es ++ cr ++ ms /\
    (length es <= 1)%nat /\ Forall exists_call es /\
    (cr = [] \/ cr = [CreateTopicCall (TopicConfig.topicName config)]) /\
    (length ms <= 1)%nat /\ Forall set_metadata_call ms /\
    (ms = [] \/ cr = [CreateTopicCall (TopicConfig.topicName config)]).
Proof.
  destruct (createTopic_follows_summary config w) as [l ->]. cbn [snd calls].
  assert (exists es, (check_summary (TopicConfig.topicName config) (service w)).2 = es /\
            (length es <= 1)%nat /\ Forall exists_call es) as (es & Hes & Hlen & Hall).
  { destruct (check_summary_shape (TopicConfig.topicName config) (service w))
      as [(-> & _)|(t & _ & -> & _)]; eexists; split; try done; simpl;
      split; repeat constructor. }
  unfold createTopic_summary.
  destruct (validateTopicName (TopicConfig.topicName config)).
  2:{ exists [], [], []. simpl. repeat split; auto. }
  destruct (check_summary (TopicConfig.topicName config) (service w)) as [[check s1] cs].
  simpl in Hes. subst cs.
  assert (forall (r : TopicResult.t) (s' : St),
    exists es' cr ms, calls w ++ (r, s', es).2 = calls w ++ es' ++ cr ++ ms /\
      (length es' <= 1)%nat /\ Forall exists_call es' /\
      (cr = [] \/ cr = [CreateTopicCall (TopicConfig.topicName config)]) /\
      (length ms <= 1)%nat /\ Forall set_metadata_call ms /\
      (ms = [] \/ cr = [CreateTopicCall (TopicConfig.topicName config)])) as Hquery.
  { intros r s'. exists es, [], []. simpl. rewrite app_nil_r. repeat split; auto. }
  assert (forall (r : TopicResult.t) (s' : St),
    exists es' cr ms,
      calls w ++ (r, s', es ++ [CreateTopicCall (TopicConfig.topicName config)]).2 =
        calls w ++ es' ++ cr ++ ms /\
      (length es' <= 1)%nat /\ Forall exists_call es' /\
      (cr = [] \/ cr = [CreateTopicCall (TopicConfig.topicName config)]) /\
      (length ms <= 1)%nat /\ Forall set_metadata_call ms /\
      (ms = [] \/ cr = [CreateTopicCall (TopicConfig.topicName config)])) as Hcreate.
  { intros r s'. exists es, [CreateTopicCall (TopicConfig.topicName config)], []. simpl.
    repeat split; auto. }
  assert (forall (r : TopicResult.t) (s' : St) tp md,
    exists es' cr ms,
      calls w ++ (r, s', es ++ [CreateTopicCall (TopicConfig.topicName config);
                                SetMetadataCall tp md]).2 =
        calls w ++ es' ++ cr ++ ms /\
      (length es' <= 1)%nat /\ Forall exists_call es' /\
      (cr = [] \/ cr = [CreateTopicCall (TopicConfig.topicName config)]) /\
      (length ms <= 1)%nat /\ Forall set_metadata_call ms /\
      (ms = [] \/ cr = [CreateTopicCall (TopicConfig.topicName config)])) as Hmeta.
  { intros r s' tp md.
    exists es, [CreateTopicCall (TopicConfig.topicName config)], [SetMetadataCall tp md].
    simpl. repeat split; auto. repeat constructor. }
  repeat case_match; auto.
Qed.

(** X10. The [created] flag tells what was done. In every run, when the result
    says [created: true] a creation request was made, and when it says
    [created: false] the only request was the existence query, on the handle of
    the configured name, whose name is the [topicName] of the result. *)
Theorem createTopic_created_flag_is_truthful (config : TopicConfig.t) (w : World St) :
  exists r w' cs,
    createTopic config w = (Return r, w') /\ calls w' = calls w ++ cs /\
    (TopicResult.created r = Some true ->
       TopicResult.success r = true /\
       CreateTopicCall (TopicConfig.topicName config) ∈ cs) /\
    (TopicResult.created r = Some false ->
       TopicResult.success r = true /\
       exists t, pubsub_topic (TopicConfig.topicName config) = Return t /\
         cs = [ExistsCall t] /\ TopicResult.topicName r = Some (name t)).
Proof.
  destruct (createTopic_follows_summary config w) as [l ->].
  eexists _, _, _. split; [reflexivity|]. split; [reflexivity|].
  unfold createTopic_summary.
  destruct (validateTopicName (TopicConfig.topicName config)); [|by split].
  destruct (check_summary_shape (TopicConfig.topicName config) (service w))
    as [(Hcs & He & Ht)|(t & Hpt & Hcs & [[He Ht]|[He Ht]])];
    destruct (check_summary (TopicConfig.topicName config) (service w))
      as [[[found handle] s1] cs];
    simpl in Hcs, He, Ht; subst found handle cs; cbn [exists_ topic].
  - repeat case_match; simpl; (split; [intros ?|intros ?]); simplify_eq;
      (split; [done|]); set_solver.
  - destruct (TopicConfig.skipIfExists config); simpl; [|by split].
    split; [done|]. intros _. split; [done|]. by exists t.
  - repeat case_match; simpl; (split; [intros ?|intros ?]); simplify_eq;
      (split; [done|]); set_solver.
Qed.

(** X11. [checkTopicExists] returns a handle exactly when it returns
    [exists = true], and that handle is the one the client builds for the
    name. It makes at most one request, an existence query, and writes to the
    log only when it returns [exists = false]. *)
Theorem checkTopicExists_handle_iff_exists (n : jsstring) (w : World St) :
  exists check w' cs,
    checkTopicExists n w = (Return check, w') /\
    (exists_ check = true <-> is_Some (topic check)) /\
    (forall t, topic check = Some t -> pubsub_topic n = Return t) /\
    calls w' = calls w ++ cs /\ (length cs <= 1)%nat /\ Forall exists_call cs /\
    (exists_ check = true -> log w' = log w).
Proof.
  destruct (pubsub_topic n) as [t|e] eqn:Ht.
  - destruct (topic_exists t (service w)) as [[b|e] s'] eqn:Hq.
    + rewrite (checkTopicExists_answer _ _ _ _ _ Ht Hq).
      eexists _, _, _. split; [reflexivity|]. cbn [exists_ topic calls log].
      split; [destruct b; split; (done || by intros [? ?])|].
      split; [by destruct b; intros ? [= <-]|].
      split; [done|]. split; [simpl; lia|]. split; [repeat constructor|done].
    + rewrite (checkTopicExists_query_fails _ _ _ _ _ Ht Hq).
      eexists _, _, _. split; [reflexivity|]. cbn [exists_ topic calls log].
      split; [split; (done || by intros [? ?])|]. split; [done|].
      split; [done|]. split; [simpl; lia|]. split; [repeat constructor|done].
  - rewrite (checkTopicExists_no_handle _ _ _ Ht).
    eexists (mkExistsCheck false None), _, []. split; [reflexivity|].
    cbn [exists_ topic calls log]. rewrite app_nil_r.
    split; [split; (done || by intros [? ?])|]. split; [done|].
    split; [done|]. split; [simpl; lia|]. split; [constructor|done].
Qed.

End Requests.

(** *** The paths on the in-memory service *)

Lemma createTopic_rejects_invalid_name_before_any_request_witness :
  Fake.create Sample.bad_name_config (Fake.world Fake.with_events) =
    (Return (TopicResult.mk false None None
               (Some (invalid_topic_name_message (lit "projects/p/topics/events")))),
     mkWorld Fake.with_events []
       [Error (lit "Failed to create topic: " ++
               invalid_topic_name_message (lit "projects/p/topics/events"))]).
Proof.
  apply (@createTopic_rejects_invalid_name_before_any_request Fake.service Fake.engine
           (Fake.client (lit "p")) Sample.bad_name_config (Fake.world Fake.with_events)).
  intros Hv. apply valid_topic_name_test in Hv. vm_compute in Hv. discriminate.
Defined.

Lemma createTopic_reports_creation_failure_witness :
  fst (Fake.create Fake.skip_config (Fake.world Sample.hidden_events)) =
    Return (TopicResult.mk false None None
              (Some (lit "6 ALREADY_EXISTS: Topic already exists"))) /\
  calls (snd (Fake.create Fake.skip_config (Fake.world Sample.hidden_events))) =
    [ExistsCall Fake.events; CreateTopicCall (lit "events")].
Proof.
  destruct (@createTopic_reports_creation_failure Fake.service Fake.engine
              (Fake.client (lit "p")) Fake.skip_config (Fake.world Sample.hidden_events)
              Fake.events (Throw Fake.unavailable)
              (ErrorObj (lit "6 ALREADY_EXISTS: Topic already exists"))
              Sample.hidden_events Sample.hidden_events) as (Hr & _ & Hc).
  - vm_compute. reflexivity.
  - vm_compute. reflexivity.
  - vm_compute. reflexivity.
  - discriminate.
  - vm_compute. reflexivity.
  - split; [exact Hr|exact Hc].
Defined.

Lemma createTopic_creates_without_metadata_witness :
  fst (Fake.create Sample.empty_fields_config (Fake.world Fake.empty)) =
    Return (TopicResult.mk true (Some (lit "projects/p/topics/events")) (Some true) None) /\
  service (snd (Fake.create Sample.empty_fields_config (Fake.world Fake.empty))) =
    Sample.created_events /\
  calls (snd (Fake.create Sample.empty_fields_config (Fake.world Fake.empty))) =
    [ExistsCall Fake.events; CreateTopicCall (lit "events")].
Proof.
  apply (@createTopic_creates_without_metadata Fake.service Fake.engine
           (Fake.client (lit "p")) Sample.empty_fields_config (Fake.world Fake.empty)
           Fake.events Fake.events (Return false) Fake.empty Sample.created_events);
    try (vm_compute; reflexivity).
  discriminate.
Defined.

Lemma createTopic_applies_metadata_in_one_call_witness :
  fst (Fake.create Fake.labelled_config (Fake.world Fake.empty)) =
    Return (TopicResult.mk true (Some (lit "projects/p/topics/events")) (Some true) None) /\
  service (snd (Fake.create Fake.labelled_config (Fake.world Fake.empty))) =
    Sample.labelled_events /\
  calls (snd (Fake.create Fake.labelled_config (Fake.world Fake.empty))) =
    [ExistsCall Fake.events; CreateTopicCall (lit "events");
     SetMetadataCall Fake.events Fake.labelled_metadata].
Proof.
  apply (@createTopic_applies_metadata_in_one_call Fake.service Fake.engine
           (Fake.client (lit "p")) Fake.labelled_config (Fake.world Fake.empty)
           Fake.events Fake.events (Return false) Fake.labelled_metadata
           Fake.empty Sample.created_events Sample.labelled_events);
    try (vm_compute; reflexivity).
  - discriminate.
  - left. vm_compute. reflexivity.
Defined.

Lemma createTopic_parse_failure_after_creation_witness :
  fst (Fake.create Sample.bad_labels_config (Fake.world Fake.empty)) =
    Return (TopicResult.mk false None None
              (Some (lit "Failed to parse labels: Unexpected token in JSON: not json"))) /\
  service (snd (Fake.create Sample.bad_labels_config (Fake.world Fake.empty))) =
    Sample.created_events /\
  calls (snd (Fake.create Sample.bad_labels_config (Fake.world Fake.empty))) =
    [ExistsCall Fake.events; CreateTopicCall (lit "events")].
Proof.
  apply (@createTopic_parse_failure_after_creation Fake.service Fake.engine
           (Fake.client (lit "p")) Sample.bad_labels_config (Fake.world Fake.empty)
           Fake.events Fake.events (Return false)
           (ErrorObj (lit "Failed to parse labels: Unexpected token in JSON: not json"))
           Fake.empty Sample.created_events);
    try (vm_compute; reflexivity).
  discriminate.
Defined.

Lemma createTopic_passes_kms_key_verbatim_witness :
  calls (snd (Fake.create Sample.key_config (Fake.world Fake.empty))) =
    [ExistsCall Fake.events; CreateTopicCall (lit "events");
     SetMetadataCall Fake.events Sample.key_metadata].
Proof.
  apply (@createTopic_passes_kms_key_verbatim Fake.service Fake.engine
           (Fake.client (lit "p")) Sample.key_config (Fake.world Fake.empty)
           Fake.events Fake.events (Return false) (lit "not a key path")
           Fake.empty Sample.created_events);
    try (vm_compute; reflexivity); discriminate.
Defined.

Lemma createTopic_created_flag_is_truthful_witness :
  CreateTopicCall (lit "events") ∈
    calls (snd (Fake.create Fake.strict_config (Fake.world Fake.empty))) /\
  calls (snd (Fake.create Fake.skip_config (Fake.world Fake.with_events))) =
    [ExistsCall Fake.events].
Proof.
  split.
  - destruct (@createTopic_created_flag_is_truthful Fake.service Fake.engine
                (Fake.client (lit "p")) Fake.strict_config (Fake.world Fake.empty))
      as (r & w' & cs & Heq & Hcalls & Htrue & _).
    unfold Fake.create. rewrite Heq. cbn [snd]. rewrite Hcalls.
    assert (TopicResult.created r = Some true) as Hcreated.
    { apply (f_equal fst) in Heq. vm_compute in Heq. injection Heq as <-. reflexivity. }
    apply (Htrue Hcreated).
  - destruct (@createTopic_created_flag_is_truthful Fake.service Fake.engine
                (Fake.client (lit "p")) Fake.skip_config (Fake.world Fake.with_events))
      as (r & w' & cs & Heq & Hcalls & _ & Hfalse).
    unfold Fake.create. rewrite Heq. cbn [snd]. rewrite Hcalls.
    assert (TopicResult.created r = Some false) as Hcreated.
    { apply (f_equal fst) in Heq. vm_compute in Heq. injection Heq as <-. reflexivity. }
    destruct (Hfalse Hcreated) as (_ & t & Ht & -> & _).
    vm_compute in Ht. injection Ht as <-. reflexivity.
Defined.

Lemma checkTopicExists_handle_iff_exists_witness :
  log (snd (Fake.check (lit "events") (Fake.world Fake.with_events))) = [] /\
  pubsub_topic (PubSub := Fake.client (lit "p")) (lit "events") = Return Fake.events.
Proof.
  destruct (@checkTopicExists_handle_iff_exists Fake.service (Fake.client (lit "p"))
              (lit "events") (Fake.world Fake.with_events))
    as (check & w' & cs & Heq & _ & Hhandle & _ & _ & _ & Hlog).
  assert (check = mkExistsCheck true (Some Fake.events)) as ->.
  { apply (f_equal fst) in Heq. vm_compute in Heq. injection Heq as <-. reflexivity. }
  split.
  - unfold Fake.check. rewrite Heq. cbn [snd]. apply Hlog. reflexivity.
  - apply Hhandle. reflexivity.
Defined.

(** ** More on labels and durations *)

Section MoreParsing.

Context `{Engine}.

(** X12. A JSON array is not rejected for being an array: when all its
    elements are strings, [parseLabels] returns the map from the index of each
    element, in decimal, to that element. *)
Theorem parseLabels_reads_an_array_by_index (text : jsstring) (elems : list JSON) :
  parse_text text = Some (JArray elems) ->
  (forall x, x ∈ elems -> typeof x = lit "string") ->
  exists labels, parseLabels text = Return labels /\
    forall k v, labels !! k = Some v <->
      exists i, elems !! i = Some (JString v) /\ k = decimal (N.of_nat i).
Proof.
  intros Hp Hall. rewrite (parseLabels_entries _ _ _ Hp eq_refl).
  destruct (collect_labels_lookup
              (imap (fun i x => (decimal (N.of_nat i), x)) elems) ∅)
    as (labels & -> & Hl).
  - apply Forall_forall. intros kv (i & x & -> & Hi)%elem_of_lookup_imap.
    apply typeof_string, Hall. by eapply list_elem_of_lookup_2.
  - apply (index_keys_NoDup (fun x => x)).
  - exists labels. split; [done|]. intros k v. rewrite Hl, lookup_empty.
    rewrite elem_of_lookup_imap. split.
    + intros [[(i & x & [= -> ->] & Hi) _]|[_ [=]]]. eauto.
    + intros (i & Hi & ->). left. split; [eauto|]. apply decimal_not_proto.
Qed.

(** X13. A member named [__proto__] is silently dropped: for a flat JSON
    object whose values are all strings, [parseLabels] succeeds, the returned
    map has no label [__proto__], and it has exactly the other members. *)
Theorem parseLabels_drops_the_proto_member (text : jsstring)
    (props : list (jsstring * JSON)) :
  parse_text text = Some (JObject props) ->
  (forall k v, (k, v) ∈ props -> typeof v = lit "string") ->
  exists labels, parseLabels text = Return labels /\
    labels !! lit "__proto__" = None /\
    forall k s, k <> lit "__proto__" -> labels !! k = Some s <-> (k, JString s) ∈ props.
Proof.
  intros Hp Hall.
  destruct (parseLabels_flat_object text props Hp Hall) as (labels & -> & Hl).
  exists labels. split; [done|]. split.
  - destruct (labels !! lit "__proto__") as [s|] eqn:E; [|done].
    apply Hl in E as [_ ?]. done.
  - intros k s Hk. rewrite Hl. naive_solver.
Qed.

End MoreParsing.

Section MoreDurations.

Local Open Scope Z_scope.

Lemma round_double_overflow z : 2 ^ 1024 <= z -> round_double z = Infinity.
Proof.
  intros Hz. unfold round_double.
  destruct (Z.ltb_spec z (2 ^ 53)) as [?|_]; [lia|].
  set (e := Z.log2 z - 52). set (q := Z.shiftr z e). cbv zeta.
  set (q' := if _ : bool then (q + 1) else q).
  assert (1024 <= Z.log2 z) as Hl by (apply Z.log2_le_pow2; lia).
  assert (1 <= e) as He by (unfold e; lia).
  assert (0 < 2 ^ e) as Hpe by (apply Z.pow_pos_nonneg; lia).
  assert (2 ^ 52 <= q) as Hq.
  { unfold q. rewrite Z.shiftr_div_pow2 by lia.
    destruct (Z.log2_spec z) as [Hlo _]; [lia|].
    replace (Z.log2 z) with (52 + e) in Hlo by (unfold e; lia).
    rewrite Z.pow_add_r in Hlo by lia. apply Z.div_le_lower_bound; lia. }
  assert (q <= q') as Hq' by (unfold q'; destruct (_ || _); lia).
  rewrite Z.shiftl_mul_pow2 by lia.
  assert (2 ^ 1024 <= q' * 2 ^ e) as Hbig.
  { transitivity (2 ^ 52 * 2 ^ e); [|apply Z.mul_le_mono_nonneg_r; lia].
    rewrite <- Z.pow_add_r by lia. apply Z.pow_le_mono_r; unfold e; lia. }
  by destruct (Z.leb_spec (2 ^ 1024) (q' * 2 ^ e)) as [_|?]; [|lia].
Qed.

Lemma digits_value_bound ds :
  Forall Spec.is_digit ds -> digits_value ds < 10 ^ Z.of_nat (length ds).
Proof.
  unfold digits_value. intros Hds.
  assert (forall a, 0 <= a ->
    fold_left (fun acc c => 10 * acc + Z.of_N (c - ch "0")) ds a
      < (a + 1) * 10 ^ Z.of_nat (length ds)) as Hfold.
  { induction Hds as [|c ds Hc _ IH]; intros a Ha; cbn [fold_left].
    - simpl. lia.
    - assert (0 <= Z.of_N (c - ch "0") <= 9) as Hd.
      { unfold Spec.is_digit in Hc. ch_values. lia. }
      specialize (IH (10 * a + Z.of_N (c - ch "0")) ltac:(lia)).
      rewrite length_cons, Nat2Z.inj_succ, Z.pow_succ_r by lia.
      assert (0 < 10 ^ Z.of_nat (length ds)) by (apply Z.pow_pos_nonneg; lia).
      assert ((10 * a + Z.of_N (c - ch "0") + 1) * 10 ^ Z.of_nat (length ds)
              <= (10 * a + 10) * 10 ^ Z.of_nat (length ds))
        by (apply Z.mul_le_mono_nonneg_r; lia).
      lia. }
  specialize (Hfold 0). lia.
Qed.

Lemma factor_bounds u : 1 <= Spec.factor u <= 86400.
Proof. unfold Spec.factor. repeat case_bool_decide; lia. Qed.

Lemma parseDuration_digits ds u :
  ds <> [] -> Forall Spec.is_digit ds -> Spec.is_unit u ->
  parseDuration (ds ++ [u]) =
    Return {| seconds := Some (Num.mul (round_double (digits_value ds)) (Fin (Spec.factor u)));
              nanos := None |}.
Proof.
  intros Hne Hds Hu.
  assert (Spec.duration_text (ds ++ [u])) as Ht by (by exists ds, u).
  apply duration_text_match in Ht as (ds' & u' & Heq & Hm & _).
  apply app_inj_tail in Heq as [<- <-].
  unfold parseDuration. rewrite Hm. simpl.
  rewrite (parseInt10_digits ds Hne Hds).
  by rewrite seconds_of_factor by (done || apply digits_value_nonneg).
Qed.

(** X14. A magnitude of at most 11 digits is converted exactly, whatever the
    unit: [seconds] is the integer value of the digits times the seconds of
    the unit, with no rounding. Leading zeros and a zero magnitude are
    accepted. *)
Theorem parseDuration_exact_up_to_eleven_digits (ds : jsstring) (u : N) :
  ds <> [] -> Forall Spec.is_digit ds -> (length ds <= 11)%nat -> Spec.is_unit u ->
  parseDuration (ds ++ [u]) =
    Return {| seconds := Some (Fin (digits_value ds * Spec.factor u)); nanos := None |}.
Proof.
  intros Hne Hds Hlen Hu. rewrite (parseDuration_digits ds u Hne Hds Hu).
  pose proof (digits_value_nonneg ds) as H0.
  pose proof (digits_value_bound ds Hds) as Hb.
  pose proof (factor_bounds u) as Hf.
  assert (10 ^ Z.of_nat (length ds) <= 10 ^ 11) as Hpow
    by (apply Z.pow_le_mono_r; lia).
  assert (digits_value ds * Spec.factor u < 2 ^ 53) as Hsafe.
  { assert (digits_value ds * Spec.factor u <= 10 ^ 11 * 86400) by nia.
    assert (10 ^ 11 * 86400 < 2 ^ 53) by reflexivity. lia. }
  rewrite round_double_exact by nia. simpl. by rewrite round_double_exact.
Qed.

(** X15. A magnitude too large for a number is not rejected: when the value
    of the digits is 2^1024 or more, [parseDuration] returns
    [seconds = Infinity]. *)
Theorem parseDuration_overflows_to_infinity (ds : jsstring) (u : N) :
  ds <> [] -> Forall Spec.is_digit ds -> Spec.is_unit u ->
  2 ^ 1024 <= digits_value ds ->
  parseDuration (ds ++ [u]) = Return {| seconds := Some Infinity; nanos := None |}.
Proof.
  intros Hne Hds Hu Hbig. rewrite (parseDuration_digits ds u Hne Hds Hu).
  rewrite (round_double_overflow _ Hbig). simpl.
  pose proof (factor_bounds u) as Hf.
  by destruct (Z.eqb_spec (Spec.factor u) 0); [lia|].
Qed.

End MoreDurations.

Lemma parseLabels_reads_an_array_by_index_witness :
  exists labels,
    @parseLabels Fake.engine (quoted "['x','y']") = Return labels /\
    labels !! lit "1" = Some (lit "y").
Proof.
  destruct (@parseLabels_reads_an_array_by_index Fake.engine (quoted "['x','y']")
              [JString (lit "x"); JString (lit "y")]) as (labels & Hlabels & Hlookup).
  - vm_compute. reflexivity.
  - intros x Hx. apply list_elem_of_In in Hx. simpl in Hx.
    destruct Hx as [<-|[<-|[]]]; reflexivity.
  - exists labels. split; [exact Hlabels|]. apply Hlookup. exists 1%nat.
    split; reflexivity.
Defined.

Lemma parseLabels_drops_the_proto_member_witness :
  exists labels,
    @parseLabels Fake.engine (quoted "{'__proto__':'x','a':'b'}") = Return labels /\
    labels !! lit "__proto__" = None /\ labels !! lit "a" = Some (lit "b").
Proof.
  destruct (@parseLabels_drops_the_proto_member Fake.engine
              (quoted "{'__proto__':'x','a':'b'}")
              [(lit "__proto__", JString (lit "x")); (lit "a", JString (lit "b"))])
    as (labels & Hlabels & Hproto & Hlookup).
  - vm_compute. reflexivity.
  - intros k v Hin. apply list_elem_of_In in Hin. simpl in Hin.
    destruct Hin as [[= <- <-]|[[= <- <-]|[]]]; reflexivity.
  - exists labels. split; [exact Hlabels|]. split; [exact Hproto|].
    apply Hlookup; [discriminate|]. apply list_elem_of_In. simpl. tauto.
Defined.

Lemma parseDuration_exact_up_to_eleven_digits_witness :
  parseDuration (lit "99999999999" ++ [ch "d"]) =
    Return {| seconds := Some (Fin 8639999999913600); nanos := None |} /\
  parseDuration (lit "0" ++ [ch "s"]) = Return {| seconds := Some (Fin 0); nanos := None |}.
Proof.
  split.
  - apply (parseDuration_exact_up_to_eleven_digits (lit "99999999999") (ch "d")).
    + discriminate.
    + apply forallb_digit. reflexivity.
    + simpl. lia.
    + apply unit_char_spec. reflexivity.
  - apply (parseDuration_exact_up_to_eleven_digits (lit "0") (ch "s")).
    + discriminate.
    + apply forallb_digit. reflexivity.
    + simpl. lia.
    + apply unit_char_spec. reflexivity.
Defined.

Lemma parseDuration_overflows_to_infinity_witness :
  parseDuration (replicate 309 (ch "9") ++ [ch "h"]) =
    Return {| seconds := Some Infinity; nanos := None |}.
Proof.
  apply parseDuration_overflows_to_infinity.
  - discriminate.
  - apply forallb_digit. vm_compute. reflexivity.
  - apply unit_char_spec. reflexivity.
  - vm_compute. discriminate.
Defined.

(** ** run *)

Section RunProperties.

Context {St : Type} `{Engine}.

Variable getInput : jsstring -> bool -> result jsstring.
Variable new_PubSub : jsstring -> PubSub St.

Lemma logs_only_read_config : logs_only info_event (@read_config St getInput).
Proof. unfold read_config, core_info. repeat logs_step. Qed.

Lemma logs_only_createTopic (client : PubSub St) config :
  logs_only message_event (@createTopic St _ client config).
Proof.
  unfold createTopic, core_error. apply logs_only_try_catch.
  - eapply logs_only_weaken; [|apply logs_only_createTopic_try]. by intros [].
  - intros e. repeat logs_step.
Qed.

(** The summary lines of a success. *)
Lemma report_success n b (w : World St) :
  n <> [] ->
  report (TopicResult.mk true (Some n) (Some b) None) w =
    (Return tt,
     mkWorld (service w) (calls w)
       (log w ++
        [SetOutput (lit "topic-name") n; SetOutput (lit "created") (string_of_bool b);
         Info []; Info (repeat_str (lit "=") 50);
         Info (if b then lit "Topic created successfully"
               else lit "Topic already exists (skip-if-exists enabled)");
         Info (lit "Topic: " ++ n); Info (repeat_str (lit "=") 50)])).
Proof.
  intros Hn. destruct n as [|c n]; [done|].
  unfold report, action_bind, action_ret, core_setOutput, core_info, emit.
  destruct b; cbn -[repeat_str lit]; by rewrite <- !app_assoc.
Qed.

Lemma report_success_unnamed b (w : World St) :
  report (TopicResult.mk true (Some []) (Some b) None) w =
    (Return tt,
     mkWorld (service w) (calls w)
       (log w ++
        [SetOutput (lit "created") (string_of_bool b);
         Info []; Info (repeat_str (lit "=") 50);
         Info (if b then lit "Topic created successfully"
               else lit "Topic already exists (skip-if-exists enabled)");
         Info (repeat_str (lit "=") 50)])).
Proof.
  unfold report, action_bind, action_ret, core_setOutput, core_info, emit.
  destruct b; cbn -[repeat_str lit]; by rewrite <- !app_assoc.
Qed.

Lemma report_failure r (w : World St) :
  TopicResult.success r = false ->
  report r w =
    (Throw (ErrorObj (or_else (default [] (TopicResult.error r))
                              (lit "Failed to create topic"))), w).
Proof. intros Hr. unfold report, action_bind, throw. by rewrite Hr. Qed.

(** X16. [run] never throws, and its outputs are all or nothing. Either the
    step is failed, as its last event, and before that only information,
    warning and error lines were written: no output is set. Or the step is not
    failed and the output [created] is set, to ["true"] or ["false"]. *)
Theorem run_sets_outputs_or_fails (w : World St) :
  exists w' l,
    run getInput new_PubSub w = (Return tt, w') /\ log w' = log w ++ l /\
    ((exists l0 message, l = l0 ++ [SetFailed message] /\ Forall message_event l0) \/
     (Forall (fun e => ~ failed_event e) l /\
      exists b, SetOutput (lit "created") (string_of_bool b) ∈ l)).
Proof.
  unfold run, try_catch, action_bind.
  destruct (logs_only_read_config w) as (l1 & Hl1 & HP1).
  assert (Forall message_event l1) as HM1.
  { eapply Forall_impl; [done|]. by intros []. }
  destruct (read_config getInput w) as [[[projectId config]|e] w1]; simpl in Hl1.
  2:{ eexists _, _. split; [reflexivity|]. cbn [log]. rewrite Hl1, <- app_assoc.
      split; [reflexivity|]. left. eauto. }
  destruct (logs_only_createTopic (new_PubSub projectId) config w1) as (l2 & Hl2 & HP2).
  assert (exists r w2,
    @createTopic St _ (new_PubSub projectId) config w1 = (Return r, w2) /\
    well_formed_result r) as (r & w2 & Hrun & Hwf).
  { unfold createTopic, try_catch.
    destruct (@createTopic_try St _ (new_PubSub projectId) config w1) as [[r|e] w'] eqn:Htry.
    - exists r, w'. split; [done|]. left.
      by apply (@returns_only_createTopic_try St _ (new_PubSub projectId) config w1 r w').
    - eexists _, _. split; [reflexivity|]. right. simpl. eauto. }
  rewrite Hrun in Hl2 |- *. simpl in Hl2.
  destruct Hwf as [(Hs & He & [n Hn] & [b Hb])|(Hs & _)].
  - destruct r as [success topicName created error]. simpl in *. subst.
    destruct n as [|c n].
    + rewrite report_success_unnamed. eexists _, _. split; [reflexivity|].
      cbn [log]. rewrite Hl2, Hl1. split; [by rewrite <- !app_assoc|]. right. split.
      * rewrite !Forall_app. split; [|split].
        -- eapply Forall_impl; [exact HM1|]. by intros [] ? ?.
        -- eapply Forall_impl; [exact HP2|]. by intros [] ? ?.
        -- destruct b; repeat constructor; by intros ?.
      * exists b. rewrite !elem_of_app, !elem_of_cons. tauto.
    + rewrite report_success by done. eexists _, _. split; [reflexivity|].
      cbn [log]. rewrite Hl2, Hl1. split; [by rewrite <- !app_assoc|]. right. split.
      * rewrite !Forall_app. split; [|split].
        -- eapply Forall_impl; [exact HM1|]. by intros [] ? ?.
        -- eapply Forall_impl; [exact HP2|]. by intros [] ? ?.
        -- destruct b; repeat constructor; by intros ?.
      * exists b. rewrite !elem_of_app, !elem_of_cons. tauto.
  - rewrite report_failure by done. eexists _, _. split; [reflexivity|].
    cbn [log core_setFailed emit]. rewrite Hl2, Hl1.
    split; [by rewrite <- !app_assoc|]. left. eexists _, _. rewrite app_assoc.
    split; [reflexivity|]. by apply Forall_app.
Qed.

(** X17. When a required input is not supplied ([core.getInput] throws for
    [project-id], or for [topic-name]), [run] fails the step with the message
    of that error and does nothing else: no line is logged, no request is made
    and the service is untouched. *)
Theorem run_fails_on_missing_required_input (w : World St) (e : Thrown) :
  getInput (lit "project-id") true = Throw e \/
    ((exists projectId, getInput (lit "project-id") true = Return projectId) /\
     getInput (lit "topic-name") true = Throw e) ->
  run getInput new_PubSub w =
    (Return tt,
     mkWorld (service w) (calls w) (log w ++ [SetFailed (errorMessage e)])).
Proof.
  intros [Hp|[[projectId Hp] Ht]];
    unfold run, try_catch, action_bind, read_config, action_bind, lift;
    rewrite Hp; [done|]. by rewrite Ht.
Qed.

(** X18. [run] reports the result of [createTopic] and nothing else. After
    the configuration is read, if [createTopic] returns a failure, the step is
    failed with the error of the result and no output is set; if it returns a
    success with a name, the outputs [topic-name] and [created] are set from
    the result, followed by the summary lines. *)
Theorem run_reports_the_result (w w1 w2 : World St) (projectId : jsstring)
    (config : TopicConfig.t) (r : TopicResult.t) :
  read_config getInput w = (Return (projectId, config), w1) ->
  @createTopic St _ (new_PubSub projectId) config w1 = (Return r, w2) ->
  (forall message,
     TopicResult.success r = false -> TopicResult.error r = Some message -> message <> [] ->
     run getInput new_PubSub w =
       (Return tt, mkWorld (service w2) (calls w2) (log w2 ++ [SetFailed message]))) /\
  (forall n b,
     r = TopicResult.mk true (Some n) (Some b) None -> n <> [] ->
     run getInput new_PubSub w =
       (Return tt,
        mkWorld (service w2) (calls w2)
          (log w2 ++
           [SetOutput (lit "topic-name") n; SetOutput (lit "created") (string_of_bool b);
            Info []; Info (repeat_str (lit "=") 50);
            Info (if b then lit "Topic created successfully"
                  else lit "Topic already exists (skip-if-exists enabled)");
            Info (lit "Topic: " ++ n); Info (repeat_str (lit "=") 50)]))).
Proof.
  intros Hread Hcreate. split.
  - intros message Hs He Hm. unfold run, try_catch, action_bind.
    rewrite Hread, Hcreate, (report_failure r w2 Hs), He. by destruct message.
  - intros n b -> Hn. unfold run, try_catch, action_bind.
    by rewrite Hread, Hcreate, (report_success n b w2 Hn).
Qed.

End RunProperties.

Lemma run_fails_on_missing_required_input_witness :
  Sample.run Sample.no_project (Fake.world Fake.with_events) =
    (Return tt,
     mkWorld Fake.with_events []
       [SetFailed (lit "Input required and not supplied: project-id")]).
Proof.
  apply (@run_fails_on_missing_required_input Fake.service Fake.engine Sample.no_project
           Fake.client (Fake.world Fake.with_events) Sample.missing_project).
  left. reflexivity.
Defined.

Lemma run_reports_the_result_witness :
  (exists l,
     log (snd (Sample.run (Fake.inputs (lit "TRUE")) (Fake.world Fake.with_events))) =
       l ++ [SetOutput (lit "topic-name") (lit "projects/p/topics/events");
             SetOutput (lit "created") (lit "false");
             Info []; Info (repeat_str (lit "=") 50);
             Info (lit "Topic already exists (skip-if-exists enabled)");
             Info (lit "Topic: projects/p/topics/events");
             Info (repeat_str (lit "=") 50)]) /\
  (exists l,
     log (snd (Sample.run (Fake.inputs (lit "no")) (Fake.world Fake.with_events))) =
       l ++ [SetFailed (quoted "Topic 'events' already exists. Set skip-if-exists=true to succeed when topic exists.")]).
Proof.
  split.
  - destruct (@run_reports_the_result Fake.service Fake.engine (Fake.inputs (lit "TRUE"))
                Fake.client (Fake.world Fake.with_events)
                (snd (@read_config Fake.service (Fake.inputs (lit "TRUE"))
                        (Fake.world Fake.with_events)))
                (snd (Fake.create (TopicConfig.mk (lit "events") true None None None)
                        (snd (@read_config Fake.service (Fake.inputs (lit "TRUE"))
                                (Fake.world Fake.with_events)))))
                (lit "p") (TopicConfig.mk (lit "events") true None None None)
                (TopicResult.mk true (Some (lit "projects/p/topics/events")) (Some false) None))
      as [_ Hok].
    + vm_compute. reflexivity.
    + vm_compute. reflexivity.
    + unfold Sample.run.
      rewrite (Hok (lit "projects/p/topics/events") false eq_refl); [|discriminate].
      eexists. reflexivity.
  - destruct (@run_reports_the_result Fake.service Fake.engine (Fake.inputs (lit "no"))
                Fake.client (Fake.world Fake.with_events)
                (snd (@read_config Fake.service (Fake.inputs (lit "no"))
                        (Fake.world Fake.with_events)))
                (snd (Fake.create Fake.strict_config
                        (snd (@read_config Fake.service (Fake.inputs (lit "no"))
                                (Fake.world Fake.with_events)))))
                (lit "p") Fake.strict_config
                (TopicResult.mk false None None
                   (Some (already_exists_message (lit "events")))))
      as [Hfail _].
    + vm_compute. reflexivity.
    + vm_compute. reflexivity.
    + unfold Sample.run.
      rewrite (Hfail (already_exists_message (lit "events")) eq_refl eq_refl);
        [|discriminate].
      eexists. reflexivity.
Defined.
